(** * Stutter Coach backend: heuristic analyzer, progression engine and
      challenge state machine of [src/backend/server.js].

    The JavaScript of the server is embedded function by function:

    - strings are [string]s whose code units lie in the ASCII range; on
      that range [String.prototype.toLowerCase], [trim] and the regular
      expression class [\s] are the functions of [JsString] below;
    - numbers are integers ([Z]), the duration of a session included;
      [Math.floor (x / 100)] on an integer [x] is [x / 100] of [Z], which
      rounds towards minus infinity; [dailyMinutes], a quotient by 60, is
      an exact rational;
    - a field of a request body that may be absent is an [option];
    - the two in-memory [Map]s ([users], [activeChallenges]) are [gmap]s
      keyed by strings, and a handler that mutates the object it fetched
      from the map is a handler that stores the updated record back;
    - the clock ([Date.now ()], [new Date ()]) is an input of each request.

    Definitions come first, one module per component; the properties
    follow, each claim of the specification under its number. *)

From Stdlib Require Import ZArith QArith Ascii.
From Stdlib Require String.
From stdpp Require Import gmap strings list fin_maps sorting.

Local Open Scope Z_scope.

(** ** JavaScript string primitives used by the server *)

Module JsString.

(** [\s] on ASCII: TAB, LF, VT, FF, CR and SPACE. *)
Definition is_space (c : ascii) : bool :=
  let n := N_of_ascii c in
  ((9 <=? n) && (n <=? 13) || (n =? 32))%N.

Definition lower_char (c : ascii) : ascii :=
  let n := N_of_ascii c in
  if ((65 <=? n) && (n <=? 90))%N then ascii_of_N (n + 32) else c.

(** [s.toLowerCase ()] *)
Fixpoint toLowerCase (s : string) : string :=
  match s with
  | EmptyString => EmptyString
  | String c s' => String (lower_char c) (toLowerCase s')
  end.

Fixpoint trimStart (s : string) : string :=
  match s with
  | EmptyString => EmptyString
  | String c s' => if is_space c then trimStart s' else s
  end.

Fixpoint trimEnd (s : string) : string :=
  match s with
  | EmptyString => EmptyString
  | String c s' =>
      match trimEnd s' with
      | EmptyString => if is_space c then EmptyString else String c EmptyString
      | r => String c r
      end
  end.

(** [s.trim ()] *)
Definition trim (s : string) : string := trimEnd (trimStart s).

(** [s.split (/\s+/)]: the pieces between the maximal runs of white
    space.  As in JavaScript a leading or trailing run leaves an empty
    piece at that end, and the empty string splits into one empty piece.
    [in_sep] tells that the scan is inside a run, [cur] is the piece
    being read. *)
Fixpoint split_from (in_sep : bool) (cur : string) (s : string) : list string :=
  match s with
  | EmptyString => [cur]
  | String c s' =>
      if is_space c then
        if in_sep then split_from true cur s'
        else cur :: split_from true EmptyString s'
      else split_from false (cur +:+ String c EmptyString) s'
  end.

Definition split_ws (s : string) : list string :=
  split_from false EmptyString s.

(** [Boolean (s)] for a string: the empty string is the only falsy one. *)
Definition truthy (s : string) : bool :=
  match s with EmptyString => false | _ => true end.

(** [text.toLowerCase ().split (/\s+/).filter (Boolean)], the token list
    of both the analyzer and the challenge tick. *)
Definition tokens (text : string) : list string :=
  List.filter truthy (split_ws (toLowerCase text)).

(** [hay.includes (needle)] on strings. *)
Fixpoint includes (needle hay : string) : bool :=
  String.prefix needle hay ||
  match hay with
  | EmptyString => false
  | String _ hay' => includes needle hay'
  end.

(** A transcript made of white space only (the empty one included). *)
Fixpoint blank (s : string) : bool :=
  match s with
  | EmptyString => true
  | String c s' => is_space c && blank s'
  end.

End JsString.

(** ** Heuristic analyzer: [analyzeHeuristics] (server.js, lines 79-90) *)

Module Heuristics.
Import JsString.

Record Analysis := {
  score : Z;
  repeats : Z;
  fillers : Z;
  issues : list string
}.

Definition fillerWords : gset string :=
  {[ "um"; "uh"; "erm"; "hmm"; "like" ]}.

Definition has_filler (w : option string) : bool :=
  match w with
  | Some w => bool_decide (w ∈ fillerWords)
  | None => false
  end.

(** One round of the [for] loop at index [i]; the state is
    [(repeats, fillers)]. *)
Definition scan_step (words : list string) (st : Z * Z) (i : nat) : Z * Z :=
  let '(repeats, fillers) := st in
  (if bool_decide (words !! i = words !! (i - 1)%nat) then repeats + 1 else repeats,
   if has_filler (words !! i) then fillers + 1 else fillers).

(** [for (let i = 1; i < words.length; i++)] *)
Definition scan (words : list string) : Z * Z :=
  foldl (scan_step words) (0, 0) (seq 1 (length words - 1)).

Definition analyzeHeuristics (text : string) : Analysis :=
  let words := tokens text in
  let '(repeats, fillers) := scan words in
  let score := 100 - repeats * 10 - fillers * 5 in
  let score := if score <? 30 then 30 else score in
  {| score := score; repeats := repeats; fillers := fillers; issues := [] |}.

(** *** The analyzer in the words of the specification *)

Definition in_lexicon (w : string) : bool := bool_decide (w ∈ fillerWords).

(** The number of tokens of [text] that belong to the lexicon. *)
Definition lexicon_tokens (text : string) : Z :=
  Z.of_nat (length (List.filter in_lexicon (tokens text))).

(** The number of adjacent identical token pairs. *)
Fixpoint adjacent_pairs (words : list string) : Z :=
  match words with
  | w :: (w' :: _) as rest =>
      (if bool_decide (w' = w) then 1 else 0) + adjacent_pairs rest
  | _ => 0
  end.

(** Score 100, less 10 per repeat and 5 per filler, floored at 30. *)
Definition spec_analyze (text : string) : Analysis :=
  let repeats := adjacent_pairs (tokens text) in
  let fillers := lexicon_tokens text in
  {| score := Z.max 30 (100 - 10 * repeats - 5 * fillers);
     repeats := repeats; fillers := fillers; issues := [] |}.

End Heuristics.

(** ** Progression engine: [updateGamification] and the [users] map
      (server.js, lines 29-77, 107-125 and 188-240) *)

Module Gamification.

Record Stats := {
  totalSessions : Z;
  totalSeconds : Z;
  (** [dailyMinutes] is a quotient by 60; it is kept as an exact rational. *)
  dailyMinutes : Q
}.

(** A profile of the [users] map.  A profile created by [/coach] has no
    [password] field; [lastActiveDate] is [null] or an ISO date string. *)
Record User := {
  username : string;
  password : option string;
  xp : Z;
  level : Z;
  streak : Z;
  lastActiveDate : option string;
  badges : list string;
  stats : Stats
}.

(** What the clock gives to one call: [getTodayDate ()] and the ISO date
    of the [Date] set back by one day. *)
Record Dates := {
  today : string;
  yesterday : string
}.

Record Reward := {
  earnedXp : Z;
  newBadges : list string
}.

Definition calculateLevel (xp : Z) : Z := xp / 100 + 1.

(** The closure [awardBadge]; its state is [(user.badges, newBadges)]. *)
Definition awardBadge (name : string) (st : list string * list string)
  : list string * list string :=
  let '(badges, newBadges) := st in
  if bool_decide (name ∈ badges) then st
  else (badges ++ [name], newBadges ++ [name]).

Definition updateGamification (clock : Dates) (user : User)
    (sessionDurationSec fluencyScore : Z) : User * Reward :=
  let today := today clock in
  let totalSessions := totalSessions (stats user) + 1 in
  let totalSeconds := totalSeconds (stats user) + sessionDurationSec in
  let dailyMinutes :=
    if bool_decide (lastActiveDate user ≠ Some today) then 0%Q
    else dailyMinutes (stats user) in
  let dailyMinutes := (dailyMinutes + inject_Z sessionDurationSec / 60)%Q in
  let '(streak, lastActiveDate) :=
    if bool_decide (lastActiveDate user ≠ Some today) then
      (if bool_decide (lastActiveDate user = Some (yesterday clock))
       then streak user + 1 else 1,
       Some today)
    else (streak user, lastActiveDate user) in
  let earnedXp := 10 + sessionDurationSec / 10 in
  let earnedXp := if 80 <=? fluencyScore then earnedXp + 20 else earnedXp in
  let xp := xp user + earnedXp in
  let level := calculateLevel xp in
  let st := (badges user, []) in
  let st := if 1 <=? totalSessions then awardBadge "First Step" st else st in
  let st := if 10 <=? totalSessions then awardBadge "Dedicated Speaker" st else st in
  let st := if 3 <=? streak then awardBadge "Consistency Champion" st else st in
  let st := if 90 <=? fluencyScore then awardBadge "Smooth Speaker" st else st in
  let st := if 500 <=? xp then awardBadge "XP Hunter" st else st in
  ({| username := username user; password := password user;
      xp := xp; level := level; streak := streak;
      lastActiveDate := lastActiveDate; badges := st.1;
      stats := {| totalSessions := totalSessions;
                  totalSeconds := totalSeconds;
                  dailyMinutes := dailyMinutes |} |},
   {| earnedXp := earnedXp; newBadges := st.2 |}).

(** The five badge identifiers of [updateGamification]. *)
Definition badge_names : list string :=
  ["First Step"; "Dedicated Speaker"; "Consistency Champion";
   "Smooth Speaker"; "XP Hunter"].

(** One call of the engine, as a client of it sees it. *)
Record Call := {
  call_clock : Dates;
  call_duration : Z;
  call_score : Z
}.

Definition apply_call (user : User) (c : Call) : User * Reward :=
  updateGamification (call_clock c) user (call_duration c) (call_score c).

(** A sequence of calls on one profile: the profile after the last call
    and the [newBadges] of every call, in order. *)
Fixpoint apply_calls (user : User) (cs : list Call) : User * list (list string) :=
  match cs with
  | [] => (user, [])
  | c :: cs' =>
      let '(user', r) := apply_call user c in
      let '(user'', rs) := apply_calls user' cs' in
      (user'', newBadges r :: rs)
  end.

(** *** The [users] map and the handlers that write to it *)

Definition emptyStats : Stats :=
  {| totalSessions := 0; totalSeconds := 0; dailyMinutes := 0%Q |}.

(** The demo user seeded when the server starts, on date [startDate]. *)
Definition demoUser (startDate : string) : User :=
  {| username := "Demo User"; password := Some "123";
     xp := 120; level := 2; streak := 1;
     lastActiveDate := Some startDate;
     badges := ["First Step"];
     stats := {| totalSessions := 5; totalSeconds := 300; dailyMinutes := 5%Q |} |}.

Definition seed (startDate : string) : gmap string User :=
  {[ "Demo User" := demoUser startDate ]}.

(** The profile [POST /users] stores. *)
Definition newUser (clean pw : string) : User :=
  {| username := clean; password := Some pw;
     xp := 0; level := 1; streak := 0; lastActiveDate := None;
     badges := []; stats := emptyStats |}.

(** The profile [POST /coach] stores for an unknown [userId]. *)
Definition fallbackUser (userId : string) : User :=
  {| username := userId; password := None;
     xp := 0; level := 1; streak := 0; lastActiveDate := None;
     badges := []; stats := emptyStats |}.

(** [!v] for an optional string of the request body. *)
Definition falsy (v : option string) : bool :=
  match v with
  | Some s => negb (JsString.truthy s)
  | None => true
  end.

(** What the language service does with the one call [/coach] makes:
    the call throws; or it returns the text [null], which parses to a
    value whose fields cannot be read; or it returns any other text,
    parsed or replaced by the fallback record. *)
Inductive Upstream :=
| ChatFails
| RepliesNull
| Replies.

(** [userId] and [duration] are optional in the body of [/coach]. *)
Inductive Request :=
| PostUsers (username password : option string)
| PostCoach (transcript userId : option string) (duration : option Z)
            (clock : Dates) (upstream : Upstream).

Inductive Response :=
| BadRequest (error : string)
| Registered (username : string)
| Coached (score : Z) (userProfile : User) (gamification : Reward)
| ServerError.

Definition post_users (username password : option string)
    (users : gmap string User) : Response * gmap string User :=
  if falsy username || falsy password then
    (BadRequest "Username and Password required", users)
  else
    let clean := JsString.trim (default "" username) in
    if bool_decide (is_Some (users !! clean)) then
      (BadRequest "User already exists", users)
    else
      (Registered clean, <[clean := newUser clean (default "" password)]> users).

(** [POST /coach].  The profile is resolved or created first.  A
    missing transcript makes [analyzeHeuristics] throw and a failure of
    the language service makes [co.chat] throw: both are caught and
    answered with status 500, after the profile was stored and before
    [updateGamification] runs.  Reading the fields of a [null] reply
    throws after [updateGamification] has updated the stored profile.
    The session ledger, which none of the properties below reads, is
    left out, and with it the fields of the reply. *)
Definition post_coach (transcript userId : option string) (duration : option Z)
    (clock : Dates) (upstream : Upstream)
    (users : gmap string User) : Response * gmap string User :=
  let userId := default "Demo User" userId in
  let duration := default 0 duration in
  let '(user, users) :=
    match users !! userId with
    | Some user => (user, users)
    | None => (fallbackUser userId, <[userId := fallbackUser userId]> users)
    end in
  match transcript with
  | None => (ServerError, users)
  | Some text =>
      let heuristics := Heuristics.analyzeHeuristics text in
      match upstream with
      | ChatFails => (ServerError, users)
      | RepliesNull =>
          let '(user', _) :=
            updateGamification clock user duration (Heuristics.score heuristics) in
          (ServerError, <[userId := user']> users)
      | Replies =>
          let '(user', gamification) :=
            updateGamification clock user duration (Heuristics.score heuristics) in
          (Coached (Heuristics.score heuristics) user' gamification,
           <[userId := user']> users)
      end
  end.

Definition handle (users : gmap string User) (req : Request)
  : Response * gmap string User :=
  match req with
  | PostUsers username password => post_users username password users
  | PostCoach transcript userId duration clock upstream =>
      post_coach transcript userId duration clock upstream users
  end.

(** The [users] map after the server, started on [startDate], has
    answered the requests [reqs] in order. *)
Definition run (startDate : string) (reqs : list Request) : gmap string User :=
  foldl (λ users req, (handle users req).2) (seed startDate) reqs.

(** *** Notions used to state the properties *)

(** The experience points of one call. *)
Definition earned (d s : Z) : Z :=
  if 80 <=? s then 10 + d / 10 + 20 else 10 + d / 10.

(** The state of the [awardBadge] closure extends the badges the call
    started from, [b0], by the new badges, and repeats nothing. *)
Definition award_inv (b0 : list string) (st : list string * list string) : Prop :=
  st.1 = b0 ++ st.2 ∧ (NoDup b0 → NoDup st.1).

Definition level_ok (user : User) : Prop := level user = xp user / 100 + 1.
Definition badges_ok (user : User) : Prop := NoDup (badges user).

(** Dates and clocks of the examples. *)
Definition jan1 : string := "2024-01-01".
Definition jan2 : string := "2024-01-02".
Definition jan3 : string := "2024-01-03".
Definition on_jan2 : Dates := {| today := jan2; yesterday := jan1 |}.
Definition on_jan4 : Dates := {| today := "2024-01-04"; yesterday := jan3 |}.
(** The demo user after one fluent minute on January 2nd. *)
Definition active_jan2 : User := (updateGamification on_jan2 (demoUser jan1) 60 100).1.
(** Two fluent minutes on January 2nd. *)
Definition two_calls : list Call :=
  [{| call_clock := on_jan2; call_duration := 60; call_score := 100 |};
   {| call_clock := on_jan2; call_duration := 60; call_score := 100 |}].

End Gamification.

(** ** Challenge state machine: [/challenge/start] and [/challenge/tick]
      (server.js, lines 43 and 142-182) *)

Module Challenge.
Import JsString.

Record Session := {
  startTime : Z;
  lastTranscript : string;
  lastChangeTime : Z;
  isSpeaking : bool
}.

Inductive Response :=
| BadRequest
| NotFound
| Started
| StatusOk
| StatusFail (reason : string).

Definition fillers : list string :=
  ["um"; "uh"; "like"; "hmm"; "erm"; "aa"; "er"].

Definition is_filler (w : string) : bool := bool_decide (w ∈ fillers).

(** The double quote character of the two reasons. *)
Definition dquote : string := String (ascii_of_N 34) EmptyString.

Definition stuttered (word : string) : string :=
  "Stuttered: " +:+ dquote +:+ word +:+ dquote.

Definition repetition (word : string) : string :=
  "Repetition: " +:+ dquote +:+ word +:+ " " +:+ word +:+ dquote.

Definition silence : string := "Silence detected (> 3s)".

(** [for (const word of words) if (fillers.includes (word))]: the first
    filler of the token list. *)
Definition first_filler (words : list string) : option string :=
  List.find is_filler words.

(** [for (let i = 1; i < words.length; i++) if (words[i] === words[i - 1])]:
    the first index that repeats its predecessor. *)
Definition first_repeat (words : list string) : option nat :=
  List.find (λ i, bool_decide (words !! i = words !! (i - 1)%nat))
            (seq 1 (length words - 1)).

(** The two scans of lines 163-168: the reason of the failure, if any. *)
Definition instant_fail (cleanText : string) : option string :=
  if (0 <? String.length cleanText)%nat then
    let words := tokens cleanText in
    match first_filler words with
    | Some word => Some (stuttered word)
    | None =>
        match first_repeat words with
        | Some i => Some (repetition (default "" (words !! i)))
        | None => None
        end
    end
  else None.

(** The body of the tick handler on the record it fetched: the answer,
    and the record left in the map ([None] when it was deleted). *)
Definition tick_session (challenge : Session) (transcript : option string)
    (now : Z) : Response * option Session :=
  let cleanText := trim (default "" transcript) in
  let challenge :=
    if negb (isSpeaking challenge) && (0 <? String.length cleanText)%nat then
      {| startTime := startTime challenge; lastTranscript := cleanText;
         lastChangeTime := now; isSpeaking := true |}
    else challenge in
  match instant_fail cleanText with
  | Some reason => (StatusFail reason, None)
  | None =>
      if isSpeaking challenge then
        if bool_decide (cleanText ≠ lastTranscript challenge) then
          (StatusOk,
           Some {| startTime := startTime challenge; lastTranscript := cleanText;
                   lastChangeTime := now; isSpeaking := isSpeaking challenge |})
        else if 3000 <? now - lastChangeTime challenge then
          (StatusFail silence, None)
        else (StatusOk, Some challenge)
      else (StatusOk, Some challenge)
  end.

(** [POST /challenge/start]; [t1] and [t2] are the two readings of
    [Date.now ()]. *)
Definition start (userId : option string) (t1 t2 : Z)
    (activeChallenges : gmap string Session) : Response * gmap string Session :=
  match userId with
  | Some (String _ _ as userId) =>
      (Started,
       <[userId := {| startTime := t1; lastTranscript := ""; lastChangeTime := t2;
                      isSpeaking := false |}]> activeChallenges)
  | _ => (BadRequest, activeChallenges)
  end.

(** [POST /challenge/tick].  An absent [userId] is looked up as
    [undefined], a key no record is stored under. *)
Definition tick (userId : option string) (transcript : option string) (now : Z)
    (activeChallenges : gmap string Session) : Response * gmap string Session :=
  match userId ≫= (activeChallenges !!.) with
  | None => (NotFound, activeChallenges)
  | Some challenge =>
      let userId := default "" userId in
      match tick_session challenge transcript now with
      | (response, Some challenge') =>
          (response, <[userId := challenge']> activeChallenges)
      | (response, None) => (response, delete userId activeChallenges)
      end
  end.

Inductive Request :=
| Start (userId : option string) (t1 t2 : Z)
| Tick (userId : option string) (transcript : option string) (now : Z).

Definition handle (activeChallenges : gmap string Session) (req : Request)
  : Response * gmap string Session :=
  match req with
  | Start userId t1 t2 => start userId t1 t2 activeChallenges
  | Tick userId transcript now => tick userId transcript now activeChallenges
  end.

(** The map after the requests [reqs], answered in order from the empty
    map the server starts with. *)
Definition run (reqs : list Request) : gmap string Session :=
  foldl (λ m req, (handle m req).2) ∅ reqs.

(** The answers to [reqs], in order. *)
Fixpoint answers (m : gmap string Session) (reqs : list Request) : list Response :=
  match reqs with
  | [] => []
  | req :: reqs' => (handle m req).1 :: answers (handle m req).2 reqs'
  end.

(** *** Notions used to state the properties *)

(** The transcript of a tick is blank: absent, empty or white space only. *)
Definition blank_transcript (transcript : option string) : bool :=
  match transcript with
  | Some s => blank s
  | None => true
  end.

(** What holds of every record of the map: once speaking, the stored
    transcript passed both scans; before, it is still empty. *)
Definition session_ok (c : Session) : Prop :=
  if isSpeaking c then instant_fail (lastTranscript c) = None
  else lastTranscript c = "".

(** A challenge that hears the same transcript twice, [gap] ms apart. *)
Definition hello_then (gap : Z) : list Request :=
  [Start (Some "ann") 1000 1000; Tick (Some "ann") (Some "hello world") 1500;
   Tick (Some "ann") (Some "hello world") (1500 + gap)].

(** The map when one challenge has just been started. *)
Definition just_started : gmap string Session := run [Start (Some "ann") 1000 1000].

(** The reason of a tick with the transcript [I I am fine]. *)
Definition i_i_reason : string := repetition "i".

End Challenge.

(** ** Accounts: [POST /login] (server.js, lines 128-139) *)

Module Accounts.
Import Gamification.

Inductive LoginResponse :=
| LoginOk
| LoginNotFound
| LoginWrongPassword.

(** [user.password === password]: an absent [password] field of the body
    and the missing [password] field of a profile are both [undefined]. *)
Definition login (username password : option string)
    (users : gmap string User) : LoginResponse :=
  match username ≫= (users !!.) with
  | None => LoginNotFound
  | Some user =>
      if bool_decide (Gamification.password user = password) then LoginOk
      else LoginWrongPassword
  end.

End Accounts.

(** ** Coaching and the session ledger: [POST /coach] with [sessions] and
      [sessionCounter], and [GET /sessions/:userId]
      (server.js, lines 185-240 and 275-278) *)

Module Ledger.
Import Gamification.

(** The four fields [/coach] reads of the parsed reply, each absent or of
    the type the prompt asks for. *)
Record Ai := {
  ai_fluentSentence : option string;
  ai_tips : option string;
  ai_coachTone : option string;
  ai_confidenceScore : option Z
}.

(** What the one call of the language service gives: the call throws; its
    text is no JSON; its text is the JSON [null]; its text parses to a
    value with the fields [ai]. *)
Inductive Chat :=
| ChatThrows
| ChatUnparseable
| ChatNull
| ChatObject (ai : Ai).

(** An entry of [sessions]; [createdAt] is the instant, in milliseconds,
    that the ISO string of the entry denotes. *)
Record CoachSession := {
  id : Z;
  userId : string;
  mode : string;
  transcript : string;
  score : Z;
  confidenceScore : Z;
  fluentSentence : option string;
  tips : option string;
  coachTone : option string;
  createdAt : Z;
  duration : Z
}.

Record Server := {
  users : gmap string User;
  sessions : list CoachSession;
  sessionCounter : Z
}.

Inductive CoachResponse :=
| CoachOk (session : CoachSession) (userProfile : User) (gamification : Reward)
| CoachError.

(** The record the [catch] of [JSON.parse] puts in place of the reply. *)
Definition fallbackAi (transcript : string) (heuristicScore : Z) : Ai :=
  {| ai_fluentSentence := Some transcript; ai_tips := Some "Keep going!";
     ai_coachTone := Some "supportive"; ai_confidenceScore := Some heuristicScore |}.

(** [ai.confidenceScore || heuristics.score] *)
Definition confidence_or (confidence : option Z) (heuristicScore : Z) : Z :=
  match confidence with
  | Some c => if c =? 0 then heuristicScore else c
  | None => heuristicScore
  end.

(** [POST /coach], whole.  The fields of the session are evaluated in
    order: [sessionCounter++] comes first, and reading
    [ai.confidenceScore] of a [null] reply throws after it. *)
Definition coach (transcript mode userId : option string) (duration : option Z)
    (clock : Dates) (chat : Chat) (now : Z) (s : Server) : CoachResponse * Server :=
  let userId := default "Demo User" userId in
  let mode := default "free_talk" mode in
  let duration := default 0 duration in
  let '(user, users) :=
    match users s !! userId with
    | Some user => (user, users s)
    | None => (fallbackUser userId, <[userId := fallbackUser userId]> (users s))
    end in
  match transcript with
  | None =>
      (CoachError,
       {| users := users; sessions := sessions s; sessionCounter := sessionCounter s |})
  | Some text =>
      let heuristics := Heuristics.analyzeHeuristics text in
      let parsed : option (option Ai) :=
        match chat with
        | ChatThrows => None
        | ChatUnparseable => Some (Some (fallbackAi text (Heuristics.score heuristics)))
        | ChatNull => Some None
        | ChatObject ai => Some (Some ai)
        end in
      match parsed with
      | None =>
          (CoachError,
           {| users := users; sessions := sessions s; sessionCounter := sessionCounter s |})
      | Some ai =>
          let '(user', gamification) :=
            updateGamification clock user duration (Heuristics.score heuristics) in
          let users := <[userId := user']> users in
          match ai with
          | None =>
              (CoachError,
               {| users := users; sessions := sessions s;
                  sessionCounter := sessionCounter s + 1 |})
          | Some ai =>
              let session :=
                {| id := sessionCounter s; userId := userId; mode := mode;
                   transcript := text; score := Heuristics.score heuristics;
                   confidenceScore :=
                     confidence_or (ai_confidenceScore ai) (Heuristics.score heuristics);
                   fluentSentence := ai_fluentSentence ai; tips := ai_tips ai;
                   coachTone := ai_coachTone ai; createdAt := now;
                   duration := duration |} in
              (CoachOk session user' gamification,
               {| users := users; sessions := sessions s ++ [session];
                  sessionCounter := sessionCounter s + 1 |})
          end
      end
  end.

(** [Array.prototype.sort] with the comparator
    [new Date (b.createdAt) - new Date (a.createdAt)]: the sort is stable,
    so the result is the one ordering by decreasing [createdAt] that keeps
    entries of equal [createdAt] in their order.  [insert_desc x l] puts
    [x], which stood before the entries of [l], into the sorted [l]. *)
Fixpoint insert_desc (x : CoachSession) (l : list CoachSession) : list CoachSession :=
  match l with
  | [] => [x]
  | y :: l' =>
      if createdAt y <=? createdAt x then x :: l else y :: insert_desc x l'
  end.

Definition sort_desc (l : list CoachSession) : list CoachSession :=
  foldr insert_desc [] l.

(** [GET /sessions/:userId] *)
Definition get_sessions (uid : string) (s : Server) : list CoachSession :=
  sort_desc (List.filter (λ x, bool_decide (userId x = uid)) (sessions s)).

(** The requests that write to the server state. *)
Inductive Request :=
| Register (username password : option string)
| Coach (transcript mode userId : option string) (duration : option Z)
        (clock : Dates) (chat : Chat) (now : Z).

Definition step (s : Server) (req : Request) : Server :=
  match req with
  | Register username password =>
      {| users := (post_users username password (users s)).2;
         sessions := sessions s; sessionCounter := sessionCounter s |}
  | Coach transcript mode userId duration clock chat now =>
      (coach transcript mode userId duration clock chat now s).2
  end.

(** The state the server starts in, on [startDate]. *)
Definition initial (startDate : string) : Server :=
  {| users := seed startDate; sessions := []; sessionCounter := 1 |}.

Definition run (startDate : string) (reqs : list Request) : Server :=
  foldl step (initial startDate) reqs.

(** *** Notions used to state the properties *)

(** The request of the [users] model that a request stands for. *)
Definition upstream_of (chat : Chat) : Upstream :=
  match chat with
  | ChatThrows => ChatFails
  | ChatNull => RepliesNull
  | ChatUnparseable | ChatObject _ => Replies
  end.

Definition users_request (req : Request) : Gamification.Request :=
  match req with
  | Register username password => PostUsers username password
  | Coach transcript mode userId duration clock chat now =>
      PostCoach transcript userId duration clock (upstream_of chat)
  end.

(** A reply that parses, to an object whose confidence is 70. *)
Definition some_reply : Chat :=
  ChatObject {| ai_fluentSentence := Some "Hello there."; ai_tips := None;
                ai_coachTone := Some "supportive"; ai_confidenceScore := Some 70 |}.

End Ledger.

(** ** Further notions used to state properties *)

Module Notions.
Import JsString Gamification.

(** No character of [s] is white space. *)
Fixpoint spaceless (s : string) : bool :=
  match s with
  | EmptyString => true
  | String c s' => negb (is_space c) && spaceless s'
  end.

(** The words of a text as typed: the pieces between runs of white
    space, letter case untouched. *)
Definition words_of (text : string) : list string :=
  List.filter truthy (split_ws text).

(** A word: not empty, no white space in it. *)
Definition is_word (s : string) : Prop := s ≠ "" ∧ spaceless s = true.

(** The analysis of a text without repeat or filler. *)
Definition perfect : Heuristics.Analysis :=
  {| Heuristics.score := 100; Heuristics.repeats := 0; Heuristics.fillers := 0;
     Heuristics.issues := [] |}.

(** Every badge a profile has earned by its counters is among its badges. *)
Definition badges_deserved (user : User) : Prop :=
  (1 <= totalSessions (stats user) → "First Step" ∈ badges user)
  ∧ (10 <= totalSessions (stats user) → "Dedicated Speaker" ∈ badges user)
  ∧ (3 <= streak user → "Consistency Champion" ∈ badges user)
  ∧ (500 <= xp user → "XP Hunter" ∈ badges user).

(** A profile that never completed a session is as it was created; one
    that did has a date, a streak and a session count. *)
Definition activity_ok (user : User) : Prop :=
  match lastActiveDate user with
  | None =>
      totalSessions (stats user) = 0 ∧ totalSeconds (stats user) = 0
      ∧ streak user = 0 ∧ xp user = 0 ∧ badges user = []
  | Some _ => 1 <= streak user ∧ 1 <= totalSessions (stats user)
  end.

(** The largest integer up to which the numbers of JavaScript hold every
    integer exactly, [Number.MAX_SAFE_INTEGER + 1]. *)
Definition two53 : Z := 9007199254740992.

(** The sum of the durations and of the experience points of calls. *)
Definition total_duration (cs : list Call) : Z :=
  foldr (λ c acc, call_duration c + acc) 0 cs.

Definition total_earned (cs : list Call) : Z :=
  foldr (λ c acc, earned (call_duration c) (call_score c) + acc) 0 cs.

(** The order [GET /sessions] returns: latest first. *)
Definition later_first (a b : Ledger.CoachSession) : Prop :=
  Ledger.createdAt b <= Ledger.createdAt a.

(** The entries of a list that were created at the instant [t]. *)
Definition created_at (t : Z) (l : list Ledger.CoachSession) : list Ledger.CoachSession :=
  List.filter (λ x, bool_decide (Ledger.createdAt x = t)) l.

(** The entries of a list that belong to [uid]. *)
Definition sessions_of (uid : string) (l : list Ledger.CoachSession)
  : list Ledger.CoachSession :=
  List.filter (λ x, bool_decide (Ledger.userId x = uid)) l.

(** What holds of every entry of the ledger of a server state. *)
Definition entry_ok (s : Ledger.Server) (x : Ledger.CoachSession) : Prop :=
  1 <= Ledger.id x < Ledger.sessionCounter s
  ∧ 30 <= Ledger.score x <= 100
  ∧ Ledger.confidenceScore x ≠ 0
  ∧ Ledger.score x = Heuristics.score (Heuristics.analyzeHeuristics (Ledger.transcript x))
  ∧ is_Some (Ledger.users s !! Ledger.userId x).

(** The first token that repeats its predecessor, read off the list. *)
Fixpoint first_pair (words : list string) : option string :=
  match words with
  | a :: (b :: _) as rest => if bool_decide (b = a) then Some b else first_pair rest
  | _ => None
  end.

(** No token of the list repeats its predecessor. *)
Definition no_repeat (words : list string) : Prop :=
  ∀ pre a post, words ≠ pre ++ a :: a :: post.

(** The user a challenge request is for. *)
Definition request_user (req : Challenge.Request) : option string :=
  match req with
  | Challenge.Start userId _ _ => userId
  | Challenge.Tick userId _ _ => userId
  end.

(** The record a tick leaves when it hears a first or a new transcript. *)
Definition heard (c : Challenge.Session) (cleanText : string) (now : Z)
  : Challenge.Session :=
  {| Challenge.startTime := Challenge.startTime c;
     Challenge.lastTranscript := cleanText;
     Challenge.lastChangeTime := now;
     Challenge.isSpeaking := true |}.

End Notions.

(** ** The clock of the progression engine: [getTodayDate] and the
      [yesterday] of [updateGamification] (server.js, lines 46 and 56-58) *)

Module Calendar.
Import Gamification.

Definition msPerDay : Z := 86400000.

(** The civil date of a day number, counted from 1970-01-01, in the
    proleptic Gregorian calendar of [Date]: year, month, day of month. *)
Definition civil_from_days (day : Z) : Z * Z * Z :=
  let z := day + 719468 in
  let era := z / 146097 in
  let doe := z - era * 146097 in
  let yoe := (doe - doe / 1460 + doe / 36524 - doe / 146096) / 365 in
  let doy := doe - (365 * yoe + yoe / 4 - yoe / 100) in
  let mp := (5 * doy + 2) / 153 in
  let d := doy - (153 * mp + 2) / 5 + 1 in
  let m := if mp <? 10 then mp + 3 else mp - 9 in
  let y := yoe + era * 400 + (if m <=? 2 then 1 else 0) in
  (y, m, d).

Definition digit (n : Z) : string := String (ascii_of_N (48 + Z.to_N n)) "".

(** The last [k] decimal digits of [n], padded with zeros. *)
Fixpoint digits (k : nat) (n : Z) : string :=
  match k with
  | O => ""
  | S k' => digits k' (n / 10) +:+ digit (n mod 10)
  end.

(** The year of an ISO string: four digits, or a sign and six digits. *)
Definition year_string (y : Z) : string :=
  if (0 <=? y) && (y <=? 9999) then digits 4 y
  else (if 0 <=? y then "+" else "-") +:+ digits 6 (Z.abs y).

(** [new Date (t).toISOString ().split ('T')[0]]: the date, in UTC, of the
    instant [t], in milliseconds since the epoch. *)
Definition isoDate (t : Z) : string :=
  let '(y, m, d) := civil_from_days (t / msPerDay) in
  year_string y +:+ "-" +:+ digits 2 m +:+ "-" +:+ digits 2 d.

(** The time zone of the server: the offset of local time, in
    milliseconds, at a UTC instant, and the offset at a local time. *)
Record TimeZone := {
  offset_at : Z → Z;
  offset_at_local : Z → Z
}.

(** [getTodayDate ()] at the instant [now]. *)
Definition getTodayDate (now : Z) : string := isoDate now.

(** Lines 56-58 at the instant [now]: [setDate (getDate () - 1)] moves
    the local time back by one calendar day, the time of day kept, which
    is 86400000 ms of local time; the result is read back as an instant
    and its UTC date is taken. *)
Definition yesterdayDate (tz : TimeZone) (now : Z) : string :=
  let local := now + offset_at tz now in
  let moved := local - msPerDay in
  isoDate (moved - offset_at_local tz moved).

(** The two dates of one call of [updateGamification], whose clock reads
    [now1] in [getTodayDate] and [now2] at line 56. *)
Definition clock_dates (tz : TimeZone) (now1 now2 : Z) : Dates :=
  {| today := getTodayDate now1; yesterday := yesterdayDate tz now2 |}.

(** A zone with the same offset all year. *)
Definition fixed_zone (offset : Z) : TimeZone :=
  {| offset_at := λ _, offset; offset_at_local := λ _, offset |}.

(** America/New_York in 2026: UTC-4 from March 8th, 07:00 UTC (03:00
    local time) to November 1st, 06:00 UTC (02:00 local time), UTC-5
    otherwise. *)
Definition new_york_2026 : TimeZone :=
  {| offset_at := λ t,
       if (1772953200000 <=? t) && (t <? 1793512800000)
       then -4 * 3600000 else -5 * 3600000;
     offset_at_local := λ t,
       if (1772938800000 <=? t) && (t <? 1793498400000)
       then -4 * 3600000 else -5 * 3600000 |}.

(** 2026-03-08T23:30:00Z, and noon of the day before. *)
Definition march_8_evening : Z := 1773012600000.
Definition march_7_noon : Z := 1772884800000.

(** A profile with a streak of 5, last active on March 7th. *)
Definition active_march_7 : User :=
  {| username := "ann"; password := Some "pw"; xp := 240; level := 3; streak := 5;
     lastActiveDate := Some (getTodayDate march_7_noon);
     badges := ["First Step"; "Consistency Champion"];
     stats := {| totalSessions := 6; totalSeconds := 360; dailyMinutes := 1%Q |} |}.

End Calendar.

(** * Properties *)

(** ** Heuristic analyzer *)

Section HeuristicsFacts.
Import JsString Heuristics.

Lemma adjacent_pairs_nonneg words : 0 <= adjacent_pairs words.
Proof.
  induction words as [|w [|w' rest] IH]; simpl in *; try lia.
  case_bool_decide; lia.
Qed.

(** The loop from index [length pre + 1] on, over [pre ++ p :: ws]. *)
Lemma scan_from (pre : list string) (p : string) (ws : list string) (r f : Z) :
  foldl (scan_step (pre ++ p :: ws)) (r, f) (seq (S (length pre)) (length ws))
  = (r + adjacent_pairs (p :: ws),
     f + Z.of_nat (length (List.filter in_lexicon ws))).
Proof.
  revert pre p r f.
  induction ws as [|w ws IH]; intros pre p r f.
  - simpl. f_equal; lia.
  - cbn [length seq foldl].
    assert (Hi : (pre ++ p :: w :: ws) !! S (length pre) = Some w).
    { rewrite lookup_app_r by lia.
      by replace (S (length pre) - length pre)%nat with 1%nat by lia. }
    assert (Hp : (pre ++ p :: w :: ws) !! length pre = Some p).
    { rewrite lookup_app_r by lia. by rewrite Nat.sub_diag. }
    unfold scan_step at 2.
    replace (S (length pre) - 1)%nat with (length pre) by lia.
    rewrite Hi, Hp. cbn [has_filler].
    replace (pre ++ p :: w :: ws) with ((pre ++ [p]) ++ w :: ws)
      by (by rewrite <- app_assoc).
    replace (S (S (length pre))) with (S (length (pre ++ [p])))
      by (rewrite length_app; simpl; lia).
    rewrite IH. cbn [List.filter adjacent_pairs]. fold (in_lexicon w).
    assert (Heq : bool_decide (Some w = Some p) = bool_decide (w = p)).
    { apply bool_decide_ext. split; congruence. }
    rewrite Heq.
    destruct (bool_decide (w = p)), (in_lexicon w); cbn [length]; f_equal; lia.
Qed.

(** What the loop computes: every adjacent pair is seen, and every
    token but the first is looked up in the lexicon. *)
Lemma scan_counts (words : list string) :
  scan words
  = (adjacent_pairs words,
     Z.of_nat (length (List.filter in_lexicon (tail words)))).
Proof.
  destruct words as [|p ws]; [reflexivity|].
  unfold scan. cbn [length tail].
  replace (S (length ws) - 1)%nat with (length ws) by lia.
  pose proof (scan_from [] p ws 0 0) as H. simpl in H. exact H.
Qed.

Lemma scan_nonneg (words : list string) :
  0 <= (scan words).1 ∧ 0 <= (scan words).2.
Proof.
  rewrite scan_counts. simpl. split; [apply adjacent_pairs_nonneg | lia].
Qed.

(** The returned score is the penalty formula floored at 30, it lies in
    [30, 100], and it is 100 exactly when both returned counts are 0. *)
Lemma analyzeHeuristics_score (text : string) :
  let a := analyzeHeuristics text in
  score a = Z.max 30 (100 - 10 * repeats a - 5 * fillers a)
  ∧ 30 <= score a <= 100
  ∧ (score a = 100 ↔ repeats a = 0 ∧ fillers a = 0).
Proof.
  unfold analyzeHeuristics.
  pose proof (scan_nonneg (tokens text)) as [Hr Hf].
  destruct (scan (tokens text)) as [r f]. simpl in *.
  destruct (Z.ltb_spec (100 - r * 10 - f * 5) 30); lia.
Qed.

Lemma analyzeHeuristics_repeats (text : string) :
  repeats (analyzeHeuristics text) = adjacent_pairs (tokens text).
Proof.
  unfold analyzeHeuristics. rewrite scan_counts. reflexivity.
Qed.

Lemma analyzeHeuristics_fillers (text : string) :
  fillers (analyzeHeuristics text)
  = Z.of_nat (length (List.filter in_lexicon (tail (tokens text)))).
Proof.
  unfold analyzeHeuristics. rewrite scan_counts. reflexivity.
Qed.

Lemma analyzeHeuristics_empty :
  analyzeHeuristics "" = {| score := 100; repeats := 0; fillers := 0; issues := [] |}.
Proof. reflexivity. Qed.

(** The analyzer is the one of the specification on every text whose
    first token is no filler. *)
Lemma analyzeHeuristics_agrees (text : string) :
  (∀ w, head (tokens text) = Some w → in_lexicon w = false) →
  analyzeHeuristics text = spec_analyze text.
Proof.
  intros Hhd. unfold analyzeHeuristics, spec_analyze, lexicon_tokens.
  rewrite scan_counts.
  assert (Hf : List.filter in_lexicon (tail (tokens text))
               = List.filter in_lexicon (tokens text)).
  { destruct (tokens text) as [|w ws]; [done|]. simpl. by rewrite (Hhd w). }
  rewrite Hf. f_equal.
  pose proof (adjacent_pairs_nonneg (tokens text)).
  destruct (Z.ltb_spec (100 - adjacent_pairs (tokens text) * 10
                        - Z.of_nat (length (List.filter in_lexicon (tokens text))) * 5) 30);
    lia.
Qed.

(** C1.  The analyzer does not count a filler that is the first token.
    On the text [um] the one token is in the lexicon, so the
    specification gives 1 filler and score 95; the analyzer returns
    0 fillers and score 100. *)
Theorem analyzeHeuristics_misses_first_filler :
  spec_analyze "um" = {| score := 95; repeats := 0; fillers := 1; issues := [] |}
  ∧ analyzeHeuristics "um"
    = {| score := 100; repeats := 0; fillers := 0; issues := [] |}.
Proof. split; vm_compute; reflexivity. Qed.

Example analyzeHeuristics_hello_um_um_like :
  analyzeHeuristics "Hello um  UM like"
  = {| score := 75; repeats := 1; fillers := 3; issues := [] |}.
Proof. vm_compute; reflexivity. Qed.

Example split_ws_keeps_end_pieces :
  split_ws " a  b " = [""; "a"; "b"; ""]
  ∧ split_ws "" = [""]
  ∧ tokens "  I I  am Fine " = ["i"; "i"; "am"; "fine"]
  ∧ trim "  um  hello  " = "um  hello".
Proof. split_and!; reflexivity. Qed.

End HeuristicsFacts.

(** ** Progression engine *)

Section GamificationFacts.
Import Gamification.

(** *** Projections of one call *)

Lemma updateGamification_xp clock user d s :
  xp (updateGamification clock user d s).1 = xp user + earned d s
  ∧ earnedXp (updateGamification clock user d s).2 = earned d s.
Proof.
  unfold updateGamification, earned.
  destruct (bool_decide (lastActiveDate user ≠ Some (today clock)));
    destruct (80 <=? s); split; reflexivity.
Qed.

Lemma updateGamification_level clock user d s :
  level (updateGamification clock user d s).1
  = xp (updateGamification clock user d s).1 / 100 + 1.
Proof.
  unfold updateGamification.
  destruct (bool_decide (lastActiveDate user ≠ Some (today clock))); reflexivity.
Qed.

Lemma updateGamification_streak clock user d s :
  let user' := (updateGamification clock user d s).1 in
  (streak user', lastActiveDate user')
  = if bool_decide (lastActiveDate user ≠ Some (today clock)) then
      (if bool_decide (lastActiveDate user = Some (yesterday clock))
       then streak user + 1 else 1, Some (today clock))
    else (streak user, lastActiveDate user).
Proof.
  unfold updateGamification.
  destruct (bool_decide (lastActiveDate user ≠ Some (today clock))); reflexivity.
Qed.

(** *** Badges *)

Lemma award_inv_init b0 : award_inv b0 (b0, []).
Proof. split; simpl; [by rewrite app_nil_r | done]. Qed.

Lemma awardBadge_inv b0 name st :
  award_inv b0 st → award_inv b0 (awardBadge name st).
Proof.
  destruct st as [bs ns]. intros [Heq Hnd]. unfold awardBadge.
  case_bool_decide as Hin; [by split|].
  split; simpl in *.
  - by rewrite Heq, app_assoc.
  - intros H0. apply NoDup_app. split_and!; [by apply Hnd| |apply NoDup_singleton].
    intros x Hx Hx'. apply list_elem_of_singleton in Hx'. by subst.
Qed.

Lemma award_if_inv b0 (cond : bool) name st :
  award_inv b0 st → award_inv b0 (if cond then awardBadge name st else st).
Proof. destruct cond; [apply awardBadge_inv | done]. Qed.

Lemma updateGamification_badges clock user d s :
  let r := updateGamification clock user d s in
  badges r.1 = badges user ++ newBadges r.2
  ∧ (NoDup (badges user) → NoDup (badges r.1)).
Proof.
  unfold updateGamification.
  destruct (bool_decide (lastActiveDate user ≠ Some (today clock)));
    cbv zeta beta iota; cbn [fst snd badges newBadges];
    repeat apply award_if_inv; apply award_inv_init.
Qed.

(** Only the five identifiers are ever awarded. *)
Lemma award_if_names (cond : bool) name (st : list string * list string) :
  name ∈ badge_names →
  Forall (λ b, b ∈ badge_names) st.2 →
  Forall (λ b, b ∈ badge_names) (if cond then awardBadge name st else st).2.
Proof.
  intros Hname Hst. destruct cond; [|done].
  destruct st as [bs ns]. unfold awardBadge. case_bool_decide; [done|].
  simpl in *. apply Forall_app. split; [done|]. by apply Forall_singleton.
Qed.

Lemma updateGamification_newBadges_names clock user d s :
  Forall (λ b, b ∈ badge_names) (newBadges (updateGamification clock user d s).2).
Proof.
  unfold updateGamification.
  destruct (bool_decide (lastActiveDate user ≠ Some (today clock)));
    cbv zeta beta iota; cbn [snd newBadges];
    repeat (apply award_if_names;
            [apply (bool_decide_eq_true_1 _); vm_compute; reflexivity|]);
    by apply Forall_nil.
Qed.

Lemma apply_call_badges user c :
  badges (apply_call user c).1 = badges user ++ newBadges (apply_call user c).2
  ∧ (NoDup (badges user) → NoDup (badges (apply_call user c).1)).
Proof. apply updateGamification_badges. Qed.

Lemma apply_calls_cons user c cs :
  apply_calls user (c :: cs)
  = ((apply_calls (apply_call user c).1 cs).1,
     newBadges (apply_call user c).2 :: (apply_calls (apply_call user c).1 cs).2).
Proof.
  simpl. destruct (apply_call user c) as [u r]. simpl.
  by destruct (apply_calls u cs).
Qed.

Lemma elem_of_concat (x : string) (ls : list (list string)) :
  x ∈ concat ls ↔ ∃ l, l ∈ ls ∧ x ∈ l.
Proof.
  induction ls as [|l ls IH]; simpl.
  - split; [by intros ?%elem_of_nil | by intros (? & ?%elem_of_nil & _)].
  - rewrite elem_of_app, IH. split.
    + intros [Hx | (l' & Hl' & Hx)]; [exists l | exists l'];
        split; [apply list_elem_of_here | done | by apply list_elem_of_further | done].
    + intros (l' & Hl' & Hx). apply elem_of_cons in Hl' as [-> | Hl']; eauto.
Qed.

Lemma apply_calls_badges user cs :
  badges (apply_calls user cs).1 = badges user ++ concat (apply_calls user cs).2
  ∧ (NoDup (badges user) → NoDup (badges (apply_calls user cs).1)).
Proof.
  revert user. induction cs as [|c cs IH]; intros user.
  - simpl. split; [by rewrite app_nil_r | done].
  - rewrite apply_calls_cons. cbn [fst snd concat].
    destruct (IH (apply_call user c).1) as [Heq Hnd].
    destruct (apply_call_badges user c) as [Heq1 Hnd1].
    split; [by rewrite Heq, Heq1, app_assoc | auto].
Qed.

(** *** The [users] map *)

Section Preserved.
Variable P : User → Prop.
Hypothesis P_new : ∀ clean pw, P (newUser clean pw).
Hypothesis P_fallback : ∀ userId, P (fallbackUser userId).
Hypothesis P_update :
  ∀ clock user d s, P user → P (updateGamification clock user d s).1.

Lemma handle_preserves users req :
  map_Forall (λ _, P) users → map_Forall (λ _, P) (handle users req).2.
Proof using P_new P_fallback P_update.
  intros Hall. destruct req as [un pw | tr uid dur clock up]; simpl.
  - unfold post_users. destruct (falsy un || falsy pw); [done|].
    case_bool_decide; [done|]. simpl. by apply map_Forall_insert_2.
  - unfold post_coach.
    destruct (users !! default "Demo User" uid) as [user|] eqn:Hu.
    + assert (P user) by (by apply (Hall _ _ Hu)).
      destruct tr as [text|]; [|done].
      destruct up; [done| |];
        destruct (updateGamification _ _ _ _) as [user' g] eqn:Hupd; simpl;
        (apply map_Forall_insert_2; [|done]);
        change user' with (user', g).1; rewrite <- Hupd; by apply P_update.
    + assert (map_Forall (λ _, P)
                (<[default "Demo User" uid := fallbackUser (default "Demo User" uid)]> users))
        by (by apply map_Forall_insert_2).
      destruct tr as [text|]; [|done].
      destruct up; [done| |];
        destruct (updateGamification _ _ _ _) as [user' g] eqn:Hupd; simpl;
        (apply map_Forall_insert_2; [|done]);
        change user' with (user', g).1; rewrite <- Hupd; by apply P_update.
Qed.

Lemma run_preserves startDate reqs :
  P (demoUser startDate) → map_Forall (λ _, P) (run startDate reqs).
Proof using P_new P_fallback P_update.
  intros Hdemo. unfold run.
  assert (Hseed : map_Forall (λ _, P) (seed startDate))
    by (by apply map_Forall_singleton).
  revert Hseed. generalize (seed startDate).
  induction reqs as [|req reqs IH]; intros users Hall; [done|].
  simpl. apply IH. by apply handle_preserves.
Qed.
End Preserved.

Lemma run_level_ok startDate reqs : map_Forall (λ _, level_ok) (run startDate reqs).
Proof.
  apply run_preserves; try done.
  intros. apply updateGamification_level.
Qed.

Lemma run_badges_ok startDate reqs : map_Forall (λ _, badges_ok) (run startDate reqs).
Proof.
  apply run_preserves.
  - intros; apply NoDup_nil_2.
  - intros; apply NoDup_nil_2.
  - intros clock user d s. apply updateGamification_badges.
  - apply NoDup_singleton.
Qed.

(** *** Levels *)

(** C5.  The stored level is [floor (xp / 100) + 1]: after every call of
    [updateGamification], whatever the profile it is called on, and for
    every profile of the [users] map after any sequence of requests
    (the seeded demo user, registration, the profile [/coach] creates,
    and every update [/coach] stores). *)
Theorem level_always_in_sync :
  (∀ clock user d s,
     level (updateGamification clock user d s).1
     = xp (updateGamification clock user d s).1 / 100 + 1)
  ∧ (∀ startDate reqs name user,
       run startDate reqs !! name = Some user →
       level user = xp user / 100 + 1).
Proof.
  split; [apply updateGamification_level|].
  intros startDate reqs name user Hu.
  exact (run_level_ok startDate reqs name user Hu).
Qed.

Lemma level_always_in_sync_witness :
  ∃ user,
    run jan1 [PostUsers (Some "ann") (Some "pw");
              PostCoach (Some "hello there") (Some "ann") (Some 950) on_jan2 Replies]
      !! "ann" = Some user
    ∧ xp user = 125 ∧ level user = xp user / 100 + 1.
Proof.
  eexists. split; [vm_compute; reflexivity|]. split; [reflexivity|].
  apply (proj2 level_always_in_sync jan1
           [PostUsers (Some "ann") (Some "pw");
            PostCoach (Some "hello there") (Some "ann") (Some 950) on_jan2 Replies]
           "ann").
  vm_compute; reflexivity.
Defined.

(** *** Streaks *)

(** The branches of the streak update on the two dates a call has
    computed, when they are two different dates: a profile whose date is
    the computed [yesterday] gets its streak incremented by one; a
    profile with any other date than today, or none, gets streak 1; in
    both cases [lastActiveDate] becomes today; a profile dated today
    keeps its streak and its date. *)
Theorem streak_update clock user d s :
  yesterday clock ≠ today clock →
  let user' := (updateGamification clock user d s).1 in
  (lastActiveDate user = Some (yesterday clock) →
     streak user' = streak user + 1 ∧ lastActiveDate user' = Some (today clock))
  ∧ (lastActiveDate user ≠ Some (yesterday clock) →
     lastActiveDate user ≠ Some (today clock) →
     streak user' = 1 ∧ lastActiveDate user' = Some (today clock))
  ∧ (lastActiveDate user = Some (today clock) →
     streak user' = streak user ∧ lastActiveDate user' = lastActiveDate user).
Proof.
  intros Hclock user'.
  pose proof (updateGamification_streak clock user d s) as H.
  cbv zeta in H. fold user' in H.
  split_and!.
  - intros Hy. rewrite bool_decide_true in H by (rewrite Hy; congruence).
    rewrite bool_decide_true in H by done. by inversion H.
  - intros Hy Ht. rewrite bool_decide_true in H by done.
    rewrite bool_decide_false in H by done. by inversion H.
  - intros Ht. rewrite bool_decide_false in H by (intros Hn; by apply Hn).
    by inversion H.
Qed.

(** The demo user, seeded on January 1st with streak 1, last active
    yesterday for a call on January 2nd; and the profile that call
    leaves, with streak 2, last active two days ago for a call on
    January 4th and today for a second call on January 2nd. *)
Lemma streak_update_witness :
  streak (updateGamification on_jan2 (demoUser jan1) 60 100).1 = streak (demoUser jan1) + 1
  ∧ streak (updateGamification on_jan4 active_jan2 60 100).1 = 1
  ∧ streak (updateGamification on_jan2 active_jan2 60 100).1 = streak active_jan2.
Proof.
  split_and!.
  - apply (proj1 (streak_update on_jan2 (demoUser jan1) 60 100 ltac:(discriminate))).
    reflexivity.
  - apply (proj1 (proj2 (streak_update on_jan4 active_jan2 60 100
                           ltac:(discriminate)))); discriminate.
  - apply (proj2 (proj2 (streak_update on_jan2 active_jan2 60 100
                           ltac:(discriminate)))).
    reflexivity.
Defined.

Example streak_of_active_jan2 :
  streak active_jan2 = 2 ∧ lastActiveDate active_jan2 = Some jan2.
Proof. split; reflexivity. Qed.

(** *** The dates a call computes *)

(** In a zone with the same offset all year the computed yesterday is
    the date of the instant 24 hours before the clock reading. *)
Lemma yesterdayDate_fixed_zone offset now :
  Calendar.yesterdayDate (Calendar.fixed_zone offset) now
  = Calendar.getTodayDate (now - Calendar.msPerDay).
Proof.
  unfold Calendar.yesterdayDate, Calendar.getTodayDate. simpl. f_equal. lia.
Qed.

(** The dates of some instants: the epoch and the millisecond before
    it, a leap day, the last millisecond of 1999, and the first of March
    in a century year that is a leap year and in one that is not. *)
Example isoDate_examples :
  Calendar.isoDate 0 = "1970-01-01"
  ∧ Calendar.isoDate (-1) = "1969-12-31"
  ∧ Calendar.isoDate 1709164800000 = "2024-02-29"
  ∧ Calendar.isoDate 946684799999 = "1999-12-31"
  ∧ Calendar.isoDate 951868800000 = "2000-03-01"
  ∧ Calendar.isoDate 4107542400000 = "2100-03-01"
  ∧ Calendar.isoDate (-2203977600000) = "1900-02-28".
Proof. split_and!; vm_compute; reflexivity. Qed.

(** On March 8th, 2026, at 23:30 UTC, a server in UTC counts the streak
    of a profile last active on March 7th. *)
Example streak_kept_in_utc :
  Calendar.clock_dates (Calendar.fixed_zone 0)
    Calendar.march_8_evening Calendar.march_8_evening
  = {| today := "2026-03-08"; yesterday := "2026-03-07" |}
  ∧ streak (updateGamification
              (Calendar.clock_dates (Calendar.fixed_zone 0)
                 Calendar.march_8_evening Calendar.march_8_evening)
              Calendar.active_march_7 60 100).1 = 6.
Proof. split; vm_compute; reflexivity. Qed.

(** C6.  The claim fails on the day the clocks of the server change.
    [getTodayDate] reads the date in UTC, while line 57 moves the clock
    back one day in local time and line 58 reads the result in UTC.  On
    a server in New York on March 8th, 2026, at 23:30 UTC, the local day
    before is 23 hours back: the computed yesterday is March 8th, the
    same date as today.  A profile with a streak of 5, last active on
    March 7th, yesterday's date, is not counted a sixth day: its streak
    is set to 1. *)
Theorem streak_lost_when_clocks_change :
  Calendar.getTodayDate Calendar.march_8_evening = "2026-03-08"
  ∧ Calendar.getTodayDate (Calendar.march_8_evening - Calendar.msPerDay) = "2026-03-07"
  ∧ Calendar.yesterdayDate Calendar.new_york_2026 Calendar.march_8_evening = "2026-03-08"
  ∧ lastActiveDate Calendar.active_march_7 = Some "2026-03-07"
  ∧ streak Calendar.active_march_7 = 5
  ∧ streak (updateGamification
              (Calendar.clock_dates Calendar.new_york_2026
                 Calendar.march_8_evening Calendar.march_8_evening)
              Calendar.active_march_7 60 100).1 = 1
  ∧ lastActiveDate (updateGamification
                      (Calendar.clock_dates Calendar.new_york_2026
                         Calendar.march_8_evening Calendar.march_8_evening)
                      Calendar.active_march_7 60 100).1 = Some "2026-03-08".
Proof. split_and!; vm_compute; reflexivity. Qed.

(** *** Badges *)

(** C7.  For every profile of the [users] map, after any sequence of
    requests, and any sequence of engine calls on it: no badge is held
    twice at the end; the [newBadges] of a call name no badge twice, and
    name exactly the badges the profile lacked before that call and
    holds after it; a badge named there is in the [newBadges] of no
    earlier and of no later call of the sequence. *)
Theorem badge_awarded_once startDate reqs name user :
  run startDate reqs !! name = Some user →
  (∀ cs, NoDup (badges (apply_calls user cs).1))
  ∧ (∀ pre c post,
       let before := (apply_calls user pre).1 in
       let after := (apply_call before c).1 in
       let new := newBadges (apply_call before c).2 in
       NoDup new
       ∧ (∀ b, b ∈ new ↔ (b ∉ badges before) ∧ (b ∈ badges after))
       ∧ (∀ b, b ∈ new →
            Forall (λ earlier, b ∉ earlier) (apply_calls user pre).2
            ∧ Forall (λ later, b ∉ later) (apply_calls after post).2)).
Proof.
  intros Hu.
  assert (Hnd : NoDup (badges user)) by exact (run_badges_ok startDate reqs name user Hu).
  split; [intros cs; by apply apply_calls_badges|].
  intros pre c post before after new.
  destruct (apply_calls_badges user pre) as [Hpre Hpre_nd].
  destruct (apply_call_badges before c) as [Hc Hc_nd].
  destruct (apply_calls_badges after post) as [Hpost Hpost_nd].
  fold before in Hpre, Hpre_nd. fold after new in Hc, Hc_nd.
  specialize (Hpre_nd Hnd). specialize (Hc_nd Hpre_nd). specialize (Hpost_nd Hc_nd).
  assert (Hsplit : NoDup (badges before ++ new)) by (by rewrite <- Hc).
  apply NoDup_app in Hsplit as (_ & Hdisj & Hnew).
  split_and!; [done| |].
  - intros b. rewrite Hc, elem_of_app. split.
    + intros Hb. split; [|by right]. intros Hb'. by apply (Hdisj b).
    + intros [Hb [Hb'|Hb']]; done.
  - intros b Hb. split; apply Forall_forall.
    + intros earlier He Hbe. apply (Hdisj b); [|done].
      rewrite Hpre, elem_of_app. right. apply elem_of_concat. eauto.
    + intros later Hl Hbl.
      rewrite Hpost in Hpost_nd. apply NoDup_app in Hpost_nd as (_ & Hdisj' & _).
      apply (Hdisj' b).
      * rewrite Hc, elem_of_app. by right.
      * apply elem_of_concat. eauto.
Qed.

(** The demo user holds First Step from the start; a fluent call on
    January 2nd awards it Smooth Speaker, and a second one awards nothing. *)
Lemma badge_awarded_once_witness :
  NoDup (badges (apply_calls (demoUser jan1) two_calls).1).
Proof.
  apply (proj1 (badge_awarded_once jan1 [] "Demo User" (demoUser jan1)
                  ltac:(vm_compute; reflexivity))).
Defined.

Example badges_of_two_calls :
  (apply_calls (demoUser jan1) two_calls).2 = [["Smooth Speaker"]; []]
  ∧ badges (apply_calls (demoUser jan1) two_calls).1 = ["First Step"; "Smooth Speaker"].
Proof. split; vm_compute; reflexivity. Qed.

(** *** Experience points *)

(** [earnedXp] is not negative from a duration of -100 seconds on. *)
Lemma earned_nonneg d s : -100 <= d → 0 <= earned d s.
Proof.
  intros Hd. unfold earned.
  assert (-10 <= d / 10) by (apply Z.div_le_lower_bound; lia).
  destruct (80 <=? s); lia.
Qed.

(** Over a sequence of such calls [xp] never decreases. *)
Lemma xp_monotone_calls user cs :
  Forall (λ c, -100 <= call_duration c) cs →
  xp user <= xp (apply_calls user cs).1.
Proof.
  revert user. induction cs as [|c cs IH]; intros user Hall; [simpl; lia|].
  inversion Hall as [|? ? Hc Hcs]; subst.
  rewrite apply_calls_cons. cbn [fst].
  etrans; [|apply IH; done].
  destruct (updateGamification_xp (call_clock c) user (call_duration c) (call_score c))
    as [Hxp _].
  unfold apply_call. rewrite Hxp.
  pose proof (earned_nonneg (call_duration c) (call_score c) Hc). lia.
Qed.

(** C8, as stated, fails: a request with a negative duration takes
    experience points away.  [/coach] with [duration = -1000] on the demo
    user: 10 + floor (-1000 / 10) + 20 = -70. *)
Lemma xp_decreases_on_negative_duration :
  ∃ before after,
    seed jan1 !! "Demo User" = Some before
    ∧ (handle (seed jan1)
         (PostCoach (Some "hello there") None (Some (-1000)) on_jan2 Replies)).2
        !! "Demo User" = Some after
    ∧ xp before = 120 ∧ xp after = 50.
Proof. do 2 eexists. split_and!; vm_compute; reflexivity. Qed.

(** C8, amended.  A call whose duration is at least -100 seconds, so
    every call with a non-negative duration, never lowers [xp]. *)
Theorem xp_never_decreases clock user d s :
  -100 <= d → xp user <= xp (updateGamification clock user d s).1.
Proof.
  intros Hd.
  destruct (updateGamification_xp clock user d s) as [Hxp Hearned].
  rewrite Hxp. pose proof (earned_nonneg d s Hd). lia.
Qed.

Lemma xp_never_decreases_witness :
  xp (demoUser jan1) <= xp (updateGamification on_jan2 (demoUser jan1) 65 100).1.
Proof. apply (xp_never_decreases on_jan2 (demoUser jan1) 65 100). lia. Defined.

End GamificationFacts.

(** ** Challenge state machine *)

Section ChallengeFacts.
Import JsString Challenge Notions.

(** *** Strings and scans *)

Lemma length_zero_empty (s : string) :
  (0 <? String.length s)%nat = false → s = "".
Proof. by destruct s. Qed.

Lemma trimStart_blank (s : string) : blank s = true → trimStart s = "".
Proof.
  induction s as [|c s IH]; [done|]. simpl.
  destruct (is_space c); [exact IH | done].
Qed.

Lemma trim_blank (transcript : option string) :
  blank_transcript transcript = true → trim (default "" transcript) = "".
Proof.
  destruct transcript as [s|]; simpl; [|done].
  intros Hb. unfold trim. by rewrite trimStart_blank.
Qed.

Lemma find_first_split {A} (P : A → bool) (l : list A) (x : A) :
  List.find P l = Some x →
  ∃ pre post, l = pre ++ x :: post ∧ P x = true ∧ Forall (λ y, P y = false) pre.
Proof.
  induction l as [|y l IH]; [done|]. simpl.
  destruct (P y) eqn:Hy.
  - intros [= ->]. by exists [], l.
  - intros (pre & post & -> & Hx & Hpre)%IH.
    exists (y :: pre), post. split_and!; [done | done | by constructor].
Qed.

Lemma find_is_Some {A} (P : A → bool) (l : list A) (x : A) :
  x ∈ l → P x = true → is_Some (List.find P l).
Proof.
  induction 1 as [x l | x y l Hin IH]; simpl; intros Hx.
  - rewrite Hx. eauto.
  - destruct (P y); eauto.
Qed.

(** *** One tick *)

Lemma tick_present (m : gmap string Session) u c transcript now :
  m !! u = Some c →
  tick (Some u) transcript now m
  = match tick_session c transcript now with
    | (response, Some c') => (response, <[u := c']> m)
    | (response, None) => (response, delete u m)
    end.
Proof. intros Hc. unfold tick. simpl. by rewrite Hc. Qed.

Lemma tick_absent (m : gmap string Session) u transcript now :
  m !! u = None → tick (Some u) transcript now m = (NotFound, m).
Proof. intros Hc. unfold tick. simpl. by rewrite Hc. Qed.

Lemma tick_session_instant_fail c transcript now reason :
  instant_fail (trim (default "" transcript)) = Some reason →
  tick_session c transcript now = (StatusFail reason, None).
Proof. intros Hf. unfold tick_session. by rewrite Hf. Qed.

(** A tick that keeps the record keeps [session_ok] and stores the
    trimmed transcript. *)
Lemma tick_session_keeps c transcript now response c' :
  session_ok c →
  tick_session c transcript now = (response, Some c') →
  session_ok c' ∧ lastTranscript c' = trim (default "" transcript).
Proof.
  unfold tick_session, session_ok.
  set (cleanText := trim (default "" transcript)).
  destruct (instant_fail cleanText) eqn:Hf; [done|].
  destruct c as [t0 last changed [|]]; cbn [isSpeaking lastTranscript negb andb].
  - case_bool_decide as Hne.
    + intros _ [= _ <-]. by simpl.
    + cbn [lastChangeTime]. destruct (3000 <? now - changed); [done|].
      intros Hok [= _ <-]. simpl. split; [done|].
      destruct (decide (cleanText = last)); [done|contradiction].
  - destruct (0 <? String.length cleanText)%nat eqn:Hl;
      cbn [isSpeaking lastTranscript lastChangeTime].
    + rewrite bool_decide_false by (intros Hn; by apply Hn).
      destruct (3000 <? now - now); [done|].
      by intros _ [= _ <-].
    + intros Hok [= _ <-]. simpl.
      apply length_zero_empty in Hl. by rewrite Hl.
Qed.

(** *** The map after any sequence of requests *)

Lemma handle_session_ok (m : gmap string Session) req :
  map_Forall (λ _, session_ok) m → map_Forall (λ _, session_ok) (handle m req).2.
Proof.
  intros Hall. destruct req as [[[|a u]|] t1 t2 | [u|] transcript now]; simpl; try done.
  - by apply map_Forall_insert_2.
  - destruct (m !! u) as [c|] eqn:Hc.
    + rewrite (tick_present m u c) by done.
      destruct (tick_session c transcript now) as [response [c'|]] eqn:Ht; simpl.
      * apply map_Forall_insert_2; [|done].
        by apply (tick_session_keeps c transcript now response c'); [apply (Hall u)|].
      * by apply map_Forall_delete.
    + by rewrite tick_absent.
Qed.

Lemma run_session_ok reqs : map_Forall (λ _, session_ok) (run reqs).
Proof.
  unfold run.
  assert (H0 : map_Forall (λ _ : string, session_ok) ∅) by apply map_Forall_empty.
  revert H0. generalize (∅ : gmap string Session).
  induction reqs as [|req reqs IH]; intros m Hall; [done|].
  simpl. apply IH. by apply handle_session_ok.
Qed.

(** *** Silence *)

(** C2.  In the map after any sequence of requests, for a record that
    is speaking, a tick whose trimmed transcript is the stored
    [lastTranscript]: when more than 3000 ms passed since
    [lastChangeTime] the tick fails, its reason is the text
    [Silence detected (> 3s)], which mentions silence, and the record is
    deleted; otherwise it answers ok and the map, so the record, is as it
    was. *)
Theorem tick_silence reqs u c transcript now :
  run reqs !! u = Some c →
  isSpeaking c = true →
  trim (default "" transcript) = lastTranscript c →
  (3000 < now - lastChangeTime c →
     tick (Some u) transcript now (run reqs)
     = (StatusFail "Silence detected (> 3s)", delete u (run reqs))
     ∧ includes "Silence" "Silence detected (> 3s)" = true)
  ∧ (now - lastChangeTime c <= 3000 →
     tick (Some u) transcript now (run reqs) = (StatusOk, run reqs)).
Proof.
  intros Hc Hs Heq.
  pose proof (run_session_ok reqs u c Hc) as Hok.
  unfold session_ok in Hok. rewrite Hs in Hok.
  rewrite (tick_present _ u c) by done.
  unfold tick_session. rewrite Heq, Hok, Hs. cbn [negb andb]. rewrite Hs.
  rewrite bool_decide_false by (intros Hn; by apply Hn).
  split; intros Hgap.
  - by rewrite (proj2 (Z.ltb_lt _ _)) by done.
  - rewrite (proj2 (Z.ltb_ge _ _)) by done. by rewrite insert_id.
Qed.

(** The same transcript sent twice, 3001 ms and 2000 ms apart. *)
Lemma tick_silence_witness :
  answers ∅ (hello_then 3001)
  = [Started; StatusOk; StatusFail "Silence detected (> 3s)"]
  ∧ run (hello_then 3001) !! "ann" = None
  ∧ answers ∅ (hello_then 2000) = [Started; StatusOk; StatusOk]
  ∧ is_Some (run (hello_then 2000) !! "ann").
Proof.
  pose (reqs := [Start (Some "ann") 1000 1000;
                 Tick (Some "ann") (Some "hello world") 1500]).
  pose (c := {| startTime := 1000; lastTranscript := "hello world";
                lastChangeTime := 1500; isSpeaking := true |}).
  assert (Hc : run reqs !! "ann" = Some c) by (vm_compute; reflexivity).
  pose proof (tick_silence reqs "ann" c (Some "hello world") 4501
                Hc eq_refl eq_refl) as [Hfail _].
  pose proof (tick_silence reqs "ann" c (Some "hello world") 3500
                Hc eq_refl eq_refl) as [_ Hok].
  specialize (Hfail ltac:(simpl; lia)) as [Hfail _]. specialize (Hok ltac:(simpl; lia)).
  split_and!.
  - change (answers ∅ (hello_then 3001))
      with [Started; StatusOk;
            (tick (Some "ann") (Some "hello world") 4501 (run reqs)).1].
    by rewrite Hfail.
  - change (run (hello_then 3001))
      with (tick (Some "ann") (Some "hello world") 4501 (run reqs)).2.
    rewrite Hfail. apply lookup_delete_eq.
  - change (answers ∅ (hello_then 2000))
      with [Started; StatusOk;
            (tick (Some "ann") (Some "hello world") 3500 (run reqs)).1].
    by rewrite Hok.
  - change (run (hello_then 2000))
      with (tick (Some "ann") (Some "hello world") 3500 (run reqs)).2.
    rewrite Hok. simpl. rewrite Hc. eauto.
Defined.

(** *** Fillers *)

(** The tokens of a text are its words as typed, put in lower case. *)
Lemma is_space_lower_char (c : ascii) : is_space (lower_char c) = is_space c.
Proof. by destruct c as [[] [] [] [] [] [] [] []]. Qed.

Lemma toLowerCase_snoc (cur : string) (c : ascii) :
  toLowerCase (cur +:+ String c "") = toLowerCase cur +:+ String (lower_char c) "".
Proof. induction cur as [|a cur IH]; simpl; [done|]. by rewrite IH. Qed.

Lemma split_from_toLowerCase (s : string) (in_sep : bool) (cur : string) :
  split_from in_sep (toLowerCase cur) (toLowerCase s)
  = toLowerCase <$> split_from in_sep cur s.
Proof.
  revert in_sep cur. induction s as [|c s IH]; intros in_sep cur; simpl; [done|].
  rewrite is_space_lower_char. destruct (is_space c).
  - destruct in_sep; [apply IH|]. simpl. f_equal. apply (IH true "").
  - rewrite <- toLowerCase_snoc. apply IH.
Qed.

Lemma tokens_words_of (text : string) : tokens text = toLowerCase <$> words_of text.
Proof.
  unfold tokens, words_of, split_ws.
  change (split_from false "" (toLowerCase text))
    with (split_from false (toLowerCase "") (toLowerCase text)).
  rewrite (split_from_toLowerCase text false "").
  induction (split_from false "" text) as [|w ws IH]; [done|].
  destruct w; cbn [fmap list_fmap List.filter toLowerCase truthy] in *;
    by rewrite IH.
Qed.

(** A text holds each of its own substrings that a prefix and a suffix
    surround. *)
Lemma prefix_app (w rest : string) : String.prefix w (w +:+ rest) = true.
Proof.
  induction w as [|a w IH]; simpl; [by destruct rest|].
  by destruct (ascii_dec a a).
Qed.

Lemma includes_prefix (w s : string) : String.prefix w s = true → includes w s = true.
Proof. intros Hp. destruct s; cbn [includes]; by rewrite Hp. Qed.

Lemma includes_app (w before rest : string) :
  includes w (before +:+ w +:+ rest) = true.
Proof.
  induction before as [|a before IH].
  - change ("" +:+ w +:+ rest) with (w +:+ rest). apply includes_prefix. apply prefix_app.
  - change (String.prefix w (String a (before +:+ w +:+ rest))
            || includes w (before +:+ w +:+ rest) = true).
    rewrite IH. apply orb_true_r.
Qed.

(** C3.  For every active challenge and every tick: if a word of the
    trimmed transcript, put in lower case, is one of um, uh, like, hmm,
    erm, aa, er, the tick fails, the record is deleted, and the reason is
    the text [Stuttered: ] followed, between double quotes, by a filler
    of the transcript in lower case, the first one, so the reason cites
    that filler.  Nothing else is looked at: the answer is the same
    whatever the record holds, whatever the time, and whether or not
    tokens repeat.  So [um hello] fails citing um, in any letter case,
    and a transcript that repeats its filler fails for the filler. *)
Theorem tick_filler_fails (m : gmap string Session) u c now :
  m !! u = Some c →
  (∀ transcript raw,
     raw ∈ words_of (trim (default "" transcript)) →
     toLowerCase raw ∈ ["um"; "uh"; "like"; "hmm"; "erm"; "aa"; "er"] →
     ∃ pre word post reason,
       toLowerCase <$> words_of (trim (default "" transcript)) = pre ++ word :: post
       ∧ Forall (λ x, x ∉ ["um"; "uh"; "like"; "hmm"; "erm"; "aa"; "er"]) pre
       ∧ word ∈ ["um"; "uh"; "like"; "hmm"; "erm"; "aa"; "er"]
       ∧ reason = "Stuttered: " +:+ String (ascii_of_N 34)
                                     (word +:+ String (ascii_of_N 34) "")
       ∧ includes word reason = true
       ∧ tick (Some u) transcript now m = (StatusFail reason, delete u m))
  ∧ tick (Some u) (Some "um hello") now m
    = (StatusFail ("Stuttered: " +:+ String (ascii_of_N 34)
                                      ("um" +:+ String (ascii_of_N 34) "")),
       delete u m)
  ∧ tick (Some u) (Some "  Well UM Hello ") now m
    = (StatusFail ("Stuttered: " +:+ String (ascii_of_N 34)
                                      ("um" +:+ String (ascii_of_N 34) "")),
       delete u m)
  ∧ tick (Some u) (Some "so Er er like") now m
    = (StatusFail ("Stuttered: " +:+ String (ascii_of_N 34)
                                      ("er" +:+ String (ascii_of_N 34) "")),
       delete u m).
Proof.
  intros Hc. split_and!.
  - intros transcript raw Hraw Hfiller.
    set (cleanText := trim (default "" transcript)) in *.
    assert (Hw : toLowerCase raw ∈ tokens cleanText).
    { rewrite tokens_words_of. apply list_elem_of_fmap. by exists raw. }
    destruct (find_is_Some is_filler (tokens cleanText) _ Hw) as [word Hfind].
    { by apply bool_decide_eq_true. }
    destruct (find_first_split _ _ _ Hfind) as (pre & post & Htok & Hword & Hpre).
    exists pre, word, post, (stuttered word).
    split_and!; [by rewrite <- tokens_words_of | | by apply bool_decide_eq_true in Hword
                | done | apply (includes_app word ("Stuttered: " +:+ dquote) dquote) |].
    { eapply Forall_impl; [exact Hpre|]. intros x Hx. by apply bool_decide_eq_false in Hx. }
    rewrite (tick_present m u c) by done.
    rewrite (tick_session_instant_fail c transcript now (stuttered word)); [done|].
    fold cleanText. unfold instant_fail.
    destruct (0 <? String.length cleanText)%nat eqn:Hl.
    + unfold first_filler. by rewrite Hfind.
    + apply length_zero_empty in Hl. rewrite Hl in Hw. by apply elem_of_nil in Hw.
  - rewrite (tick_present m u c) by done.
    by rewrite (tick_session_instant_fail c _ now (stuttered "um"))
      by (vm_compute; reflexivity).
  - rewrite (tick_present m u c) by done.
    by rewrite (tick_session_instant_fail c _ now (stuttered "um"))
      by (vm_compute; reflexivity).
  - rewrite (tick_present m u c) by done.
    by rewrite (tick_session_instant_fail c _ now (stuttered "er"))
      by (vm_compute; reflexivity).
Qed.

(** The transcript [um hello] on the challenge just started. *)
Lemma tick_filler_fails_witness :
  tick (Some "ann") (Some "um hello") 1500 just_started
  = (StatusFail ("Stuttered: " +:+ String (ascii_of_N 34)
                                    ("um" +:+ String (ascii_of_N 34) "")),
     delete "ann" just_started)
  ∧ ∃ pre word post reason,
      toLowerCase <$> words_of (trim (default "" (Some "Hmm ok"))) = pre ++ word :: post
      ∧ Forall (λ x, x ∉ ["um"; "uh"; "like"; "hmm"; "erm"; "aa"; "er"]) pre
      ∧ word ∈ ["um"; "uh"; "like"; "hmm"; "erm"; "aa"; "er"]
      ∧ reason = "Stuttered: " +:+ String (ascii_of_N 34)
                                    (word +:+ String (ascii_of_N 34) "")
      ∧ includes word reason = true
      ∧ tick (Some "ann") (Some "Hmm ok") 1500 just_started
        = (StatusFail reason, delete "ann" just_started).
Proof.
  pose proof (tick_filler_fails just_started "ann"
                {| startTime := 1000; lastTranscript := ""; lastChangeTime := 1000;
                   isSpeaking := false |} 1500 ltac:(vm_compute; reflexivity))
    as (Hall & Hum & _).
  split; [exact Hum|].
  apply (Hall (Some "Hmm ok") "Hmm").
  - apply (bool_decide_eq_true_1 _); vm_compute; reflexivity.
  - apply (bool_decide_eq_true_1 _); vm_compute; reflexivity.
Defined.

(** The reason quotes [um]; and when the fillers of a transcript also
    repeat, and the transcript is the stored one, long after the last
    change, the reason is still the filler. *)
Example tick_um_hello :
  (tick (Some "ann") (Some "um hello") 1500 just_started).1
  = StatusFail (stuttered "um")
  ∧ includes "um" (stuttered "um") = true
  ∧ tick_session {| startTime := 1000; lastTranscript := "so Um um";
                    lastChangeTime := 1000; isSpeaking := true |}
      (Some "so Um um") 999999
    = (StatusFail (stuttered "um"), None).
Proof. split_and!; vm_compute; reflexivity. Qed.

(** *** Repetitions *)

(** C4, as stated, fails: the tokens are compared and quoted in lower
    case, so the reason of the challenge just started holds [i i] and not
    [I I]. *)
Lemma tick_repetition_is_lower_case :
  (tick (Some "ann") (Some "I I am fine") 1500 just_started).1
  = StatusFail i_i_reason
  ∧ includes "I I" i_i_reason = false.
Proof. split; vm_compute; reflexivity. Qed.

(** C4, amended.  For every active challenge, a tick with the transcript
    [I I am fine] fails with the reason that quotes the pair in lower
    case, [i i], and the record is deleted. *)
Theorem tick_repetition_fails (m : gmap string Session) u c now :
  m !! u = Some c →
  tick (Some u) (Some "I I am fine") now m = (StatusFail i_i_reason, delete u m)
  ∧ includes "i i" i_i_reason = true.
Proof.
  intros Hc. split; [|vm_compute; reflexivity].
  rewrite (tick_present m u c) by done.
  by rewrite (tick_session_instant_fail c _ now i_i_reason)
    by (vm_compute; reflexivity).
Qed.

Lemma tick_repetition_fails_witness :
  tick (Some "ann") (Some "I I am fine") 1500 just_started
  = (StatusFail i_i_reason, delete "ann" just_started).
Proof.
  apply (tick_repetition_fails just_started "ann"
           {| startTime := 1000; lastTranscript := ""; lastChangeTime := 1000;
              isSpeaking := false |} 1500).
  vm_compute; reflexivity.
Defined.

(** *** The stored transcript *)

(** C9, as stated, fails: after [hello], an empty tick is a change of
    transcript, and the record it leaves in place holds the empty
    transcript. *)
Lemma lastTranscript_emptied :
  answers ∅ [Start (Some "ann") 1000 1000; Tick (Some "ann") (Some "hello") 1500;
             Tick (Some "ann") (Some "") 2000]
  = [Started; StatusOk; StatusOk]
  ∧ run [Start (Some "ann") 1000 1000; Tick (Some "ann") (Some "hello") 1500;
         Tick (Some "ann") (Some "") 2000] !! "ann"
    = Some {| startTime := 1000; lastTranscript := ""; lastChangeTime := 2000;
              isSpeaking := true |}.
Proof. split; vm_compute; reflexivity. Qed.

(** C9, amended.  In the map after any sequence of requests, a tick that
    leaves the record in place leaves in [lastTranscript] the trimmed
    transcript of that tick, empty when that transcript is blank. *)
Theorem lastTranscript_is_last_tick reqs u transcript now c' :
  (tick (Some u) transcript now (run reqs)).2 !! u = Some c' →
  lastTranscript c' = trim (default "" transcript).
Proof.
  destruct (run reqs !! u) as [c|] eqn:Hc.
  - pose proof (run_session_ok reqs u c Hc) as Hok.
    rewrite (tick_present _ u c) by done.
    destruct (tick_session c transcript now) as [response [c''|]] eqn:Ht; simpl.
    + rewrite lookup_insert_eq. intros [= <-].
      by apply (tick_session_keeps c transcript now response c'').
    + by rewrite lookup_delete_eq.
  - rewrite tick_absent by done. simpl. by rewrite Hc.
Qed.

Lemma lastTranscript_is_last_tick_witness :
  lastTranscript {| startTime := 1000; lastTranscript := "hello there";
                    lastChangeTime := 1500; isSpeaking := true |}
  = trim (default "" (Some "  hello there ")).
Proof.
  apply (lastTranscript_is_last_tick [Start (Some "ann") 1000 1000] "ann"
           (Some "  hello there ") 1500).
  vm_compute; reflexivity.
Defined.

(** *** Before speaking *)

(** On a record that is not speaking a blank tick changes nothing. *)
Lemma tick_session_blank c transcript now :
  isSpeaking c = false →
  blank_transcript transcript = true →
  tick_session c transcript now = (StatusOk, Some c).
Proof.
  intros Hs Hb. unfold tick_session.
  rewrite (trim_blank transcript Hb), Hs. simpl. by rewrite Hs.
Qed.

(** So does any number of blank ticks, at any times. *)
Lemma blank_ticks_before_speaking (m : gmap string Session) u c
    (ticks : list (option string * Z)) :
  m !! u = Some c →
  isSpeaking c = false →
  Forall (λ t, blank_transcript t.1 = true) ticks →
  answers m (map (λ t, Tick (Some u) t.1 t.2) ticks)
  = map (λ _, StatusOk) ticks.
Proof.
  intros Hc Hs. induction 1 as [|[transcript now] ticks Hb _ IH]; [done|].
  cbn [map answers handle fst snd].
  rewrite (tick_present m u c) by done.
  rewrite (tick_session_blank c transcript now) by done.
  cbn [fst snd]. rewrite insert_id by done. by rewrite IH.
Qed.

(** C10.  For every active challenge that is not speaking yet, a tick
    whose transcript is absent, empty or white space only answers ok and
    leaves the map, so the record, as it was, whatever the time of the
    tick. *)
Theorem tick_blank_before_speaking (m : gmap string Session) u c transcript now :
  m !! u = Some c →
  isSpeaking c = false →
  blank_transcript transcript = true →
  tick (Some u) transcript now m = (StatusOk, m).
Proof.
  intros Hc Hs Hb.
  rewrite (tick_present m u c) by done.
  rewrite (tick_session_blank c transcript now) by done.
  by rewrite insert_id.
Qed.

Lemma tick_blank_before_speaking_witness :
  tick None None 0 ∅ = (NotFound, ∅)
  ∧ tick (Some "ann") None 999999 just_started = (StatusOk, just_started)
  ∧ tick (Some "ann") (Some "  	 ") 999999 just_started = (StatusOk, just_started).
Proof.
  split; [reflexivity|].
  split;
    apply (tick_blank_before_speaking just_started "ann"
             {| startTime := 1000; lastTranscript := ""; lastChangeTime := 1000;
                isSpeaking := false |});
    vm_compute; reflexivity.
Defined.

End ChallengeFacts.


(** * Further properties *)

(** ** Tokens and the heuristic analyzer *)

Section HeuristicsMore.
Import JsString Heuristics Notions.

Lemma lower_char_space (c : ascii) : is_space (lower_char c) = is_space c.
Proof. by destruct c as [[] [] [] [] [] [] [] []]. Qed.

Lemma spaceless_snoc (cur : string) (c : ascii) :
  spaceless (cur +:+ String c "") = spaceless cur && negb (is_space c).
Proof.
  induction cur as [|a cur IH]; simpl.
  - by rewrite andb_true_r.
  - rewrite IH. by rewrite andb_assoc.
Qed.

Lemma snoc_not_empty (cur : string) (c : ascii) : cur +:+ String c "" ≠ "".
Proof. by destruct cur. Qed.

(** Every piece of a split is free of white space, and only the piece
    being read when the scan starts, and the last one, can be empty. *)
Lemma split_from_spaceless (s : string) (in_sep : bool) (cur : string) :
  spaceless cur = true → Forall (λ w, spaceless w = true) (split_from in_sep cur s).
Proof.
  revert in_sep cur. induction s as [|c s IH]; intros in_sep cur Hcur; simpl.
  - by apply Forall_singleton.
  - destruct (is_space c) eqn:Hc.
    + destruct in_sep; [by apply IH|]. apply Forall_cons. split; [done|by apply IH].
    + apply IH. by rewrite spaceless_snoc, Hcur, Hc.
Qed.

(** X5.  The tokens of a text, those of the analyzer and of the challenge
    tick alike, are words: none is empty and none holds white space. *)
Theorem tokens_are_words (text : string) : Forall is_word (tokens text).
Proof.
  unfold tokens.
  pose proof (split_from_spaceless (toLowerCase text) false "" eq_refl) as Hall.
  fold (split_ws (toLowerCase text)) in Hall.
  induction Hall as [|w ws Hw _ IH]; simpl; [done|].
  destruct (truthy w) eqn:Hn; [|done].
  apply Forall_cons. split; [|done]. split; [|done]. by destruct w.
Qed.

Lemma split_from_blank (s : string) (in_sep : bool) :
  blank s = true → Forall (λ w, w = "") (split_from in_sep "" (toLowerCase s)).
Proof.
  revert in_sep. induction s as [|c s IH]; intros in_sep Hb; simpl.
  - by apply Forall_singleton.
  - simpl in Hb. apply andb_true_iff in Hb as [Hc Hb].
    rewrite lower_char_space, Hc.
    destruct in_sep; [by apply IH|]. apply Forall_cons. split; [done|by apply IH].
Qed.

Lemma tokens_blank (text : string) : blank text = true → tokens text = [].
Proof.
  intros Hb. unfold tokens, split_ws.
  induction (split_from_blank text false Hb) as [|w ws -> _ IH]; [done|]. by simpl.
Qed.

(** X1.  The score the analyzer returns is 100 less 10 per returned
    repeat and 5 per returned filler, floored at 30; it lies between 30
    and 100 and is 100 exactly when both returned counts are 0. *)
Theorem analyzeHeuristics_score_bounds (text : string) :
  score (analyzeHeuristics text)
  = Z.max 30 (100 - 10 * repeats (analyzeHeuristics text)
              - 5 * fillers (analyzeHeuristics text))
  ∧ 30 <= score (analyzeHeuristics text) <= 100
  ∧ 0 <= repeats (analyzeHeuristics text)
  ∧ 0 <= fillers (analyzeHeuristics text)
  ∧ (score (analyzeHeuristics text) = 100
     ↔ repeats (analyzeHeuristics text) = 0 ∧ fillers (analyzeHeuristics text) = 0).
Proof.
  unfold analyzeHeuristics.
  pose proof (scan_nonneg (tokens text)) as [Hr Hf].
  destruct (scan (tokens text)) as [r f]. simpl in *.
  destruct (Z.ltb_spec (100 - r * 10 - f * 5) 30); lia.
Qed.

(** X2.  What the analyzer counts: every pair of adjacent identical
    tokens is a repeat, and every token of the lexicon except the first
    token of the text is a filler; both counts are below the number of
    tokens. *)
Theorem analyzeHeuristics_counts (text : string) :
  repeats (analyzeHeuristics text) = adjacent_pairs (tokens text)
  ∧ fillers (analyzeHeuristics text)
    = Z.of_nat (length (List.filter in_lexicon (tail (tokens text))))
  ∧ (tokens text ≠ [] →
     repeats (analyzeHeuristics text) < Z.of_nat (length (tokens text))
     ∧ fillers (analyzeHeuristics text) < Z.of_nat (length (tokens text))).
Proof.
  unfold analyzeHeuristics. rewrite scan_counts. cbn [repeats fillers].
  split_and!; [done | done |].
  intros Hne. split.
  - destruct (tokens text) as [|w ws]; [done|]. clear Hne.
    enough (adjacent_pairs (w :: ws) <= Z.of_nat (length ws)) by (cbn [length]; lia).
    revert w. induction ws as [|w' ws IH]; intros w; [simpl; lia|].
    specialize (IH w'). cbn [adjacent_pairs length] in *.
    case_bool_decide; lia.
  - destruct (tokens text) as [|w ws]; [done|]. cbn [tail length].
    pose proof (filter_length in_lexicon ws). lia.
Qed.

Lemma analyzeHeuristics_counts_witness :
  repeats (analyzeHeuristics "so so um") < Z.of_nat (length (tokens "so so um"))
  ∧ fillers (analyzeHeuristics "so so um") < Z.of_nat (length (tokens "so so um")).
Proof.
  apply (proj2 (proj2 (analyzeHeuristics_counts "so so um"))). discriminate.
Defined.

(** X3.  The analyzer and the analyzer of the specification differ by
    the first token alone: the returned fillers are the lexicon tokens of
    the text less one when the first token is in the lexicon, the repeats
    are the same, and the two analyses are equal exactly when the first
    token, if there is one, is not in the lexicon. *)
Theorem analyzeHeuristics_vs_spec (text : string) :
  let first_is_filler :=
    match head (tokens text) with Some w => in_lexicon w | None => false end in
  fillers (spec_analyze text)
  = fillers (analyzeHeuristics text) + (if first_is_filler then 1 else 0)
  ∧ repeats (spec_analyze text) = repeats (analyzeHeuristics text)
  ∧ (analyzeHeuristics text = spec_analyze text ↔ first_is_filler = false).
Proof.
  intros first_is_filler.
  assert (Hfill : fillers (spec_analyze text)
                  = fillers (analyzeHeuristics text) + (if first_is_filler then 1 else 0)).
  { unfold analyzeHeuristics, spec_analyze, lexicon_tokens. rewrite scan_counts.
    cbn [fillers]. subst first_is_filler.
    destruct (tokens text) as [|w ws]; [done|]. cbn [head tail List.filter].
    destruct (in_lexicon w); cbn [length]; lia. }
  split_and!; [done | |].
  - unfold analyzeHeuristics, spec_analyze. by rewrite scan_counts.
  - split.
    + intros Heq. rewrite Heq in Hfill. destruct first_is_filler; [lia|done].
    + intros Hfirst. apply analyzeHeuristics_agrees. intros w Hw.
      subst first_is_filler. by rewrite Hw in Hfirst.
Qed.

(** X4.  A text of white space only has no token, and a text of at most
    one token, be it a filler, gets the score 100 with no repeat and no
    filler. *)
Theorem analyzeHeuristics_short_text (text : string) :
  (blank text = true → tokens text = [])
  ∧ ((length (tokens text) <= 1)%nat → analyzeHeuristics text = perfect).
Proof.
  split; [apply tokens_blank|].
  intros Hlen. unfold analyzeHeuristics. rewrite scan_counts.
  destruct (tokens text) as [|w [|w' ws]]; [done | done | simpl in Hlen; lia].
Qed.

Lemma analyzeHeuristics_short_text_witness :
  tokens "  	 " = [] ∧ analyzeHeuristics " Like  " = perfect.
Proof.
  split.
  - apply (proj1 (analyzeHeuristics_short_text "  	 ")). reflexivity.
  - apply (proj2 (analyzeHeuristics_short_text " Like  ")). apply Nat.leb_le. reflexivity.
Defined.

End HeuristicsMore.

(** ** Progression engine, further *)

Section GamificationMore.
Import Gamification Notions.

(** *** One call *)

(** X6.  The experience points a call reports are the ones it adds to
    the profile; a call of non-negative duration earns at least 10, and
    at least 30 when the fluency score is 80 or more; no call earns more
    than 30 plus a tenth of its duration. *)
Theorem earnedXp_is_xp_gain clock user d s :
  let r := updateGamification clock user d s in
  xp r.1 = xp user + earnedXp r.2
  ∧ earnedXp r.2 <= 30 + d / 10
  ∧ (0 <= d → 10 <= earnedXp r.2 ∧ (80 <= s → 30 <= earnedXp r.2)).
Proof.
  intros r. destruct (updateGamification_xp clock user d s) as [Hxp Hearned].
  fold r in Hxp, Hearned. rewrite Hxp, Hearned. unfold earned.
  split_and!; [done | destruct (80 <=? s); lia |].
  intros Hd. assert (0 <= d / 10) by (apply Z.div_pos; lia).
  destruct (Z.leb_spec 80 s); lia.
Qed.

Lemma earnedXp_is_xp_gain_witness :
  10 <= earnedXp (updateGamification on_jan2 (demoUser jan1) 65 100).2
  ∧ (80 <= 100 → 30 <= earnedXp (updateGamification on_jan2 (demoUser jan1) 65 100).2).
Proof.
  apply (proj2 (proj2 (earnedXp_is_xp_gain on_jan2 (demoUser jan1) 65 100))). lia.
Defined.

Lemma updateGamification_stats clock user d s :
  let user' := (updateGamification clock user d s).1 in
  totalSessions (stats user') = totalSessions (stats user) + 1
  ∧ totalSeconds (stats user') = totalSeconds (stats user) + d
  ∧ lastActiveDate user' = Some (today clock)
  ∧ username user' = username user
  ∧ password user' = password user.
Proof.
  unfold updateGamification.
  case_bool_decide as Hd; cbn; split_and!; try done.
Qed.

(** *** Sequences of calls *)

(** X7.  Calls add up, as long as the numbers stay integers that
    JavaScript holds exactly: for calls of non-negative whole durations
    on a profile whose counters are not negative, when the sums stay at
    or below 2^53, after the sequence [totalSessions] has grown by the
    number of calls, [totalSeconds] by the sum of their durations and
    [xp] by the sum of their earned points; the name and the password of
    the profile are the same. *)
Theorem apply_calls_totals user cs :
  Forall (λ c, 0 <= call_duration c) cs →
  0 <= totalSessions (stats user) →
  0 <= totalSeconds (stats user) →
  0 <= xp user →
  totalSessions (stats user) + Z.of_nat (length cs) <= two53 →
  totalSeconds (stats user) + total_duration cs <= two53 →
  xp user + total_earned cs <= two53 →
  let user' := (apply_calls user cs).1 in
  totalSessions (stats user') = totalSessions (stats user) + Z.of_nat (length cs)
  ∧ totalSeconds (stats user') = totalSeconds (stats user) + total_duration cs
  ∧ xp user' = xp user + total_earned cs
  ∧ username user' = username user
  ∧ password user' = password user.
Proof.
  intros _ _ _ _ _ _ _. revert user. induction cs as [|c cs IH]; intros user.
  - simpl. split_and!; try done; lia.
  - rewrite apply_calls_cons. cbn [fst length total_duration total_earned foldr].
    destruct (IH (apply_call user c).1) as (Hn & Hs & Hx & Hu & Hp).
    fold (total_duration cs) (total_earned cs).
    unfold apply_call in *.
    destruct (updateGamification_stats (call_clock c) user (call_duration c) (call_score c))
      as (Hn1 & Hs1 & _ & Hu1 & Hp1).
    destruct (updateGamification_xp (call_clock c) user (call_duration c) (call_score c))
      as [Hx1 _].
    rewrite Hn, Hs, Hx, Hu, Hp, Hn1, Hs1, Hx1, Hu1, Hp1. split_and!; try done; lia.
Qed.

Lemma apply_calls_totals_witness :
  totalSessions (stats (apply_calls (demoUser jan1) two_calls).1)
  = totalSessions (stats (demoUser jan1)) + Z.of_nat (length two_calls)
  ∧ totalSeconds (stats (apply_calls (demoUser jan1) two_calls).1)
    = totalSeconds (stats (demoUser jan1)) + total_duration two_calls
  ∧ xp (apply_calls (demoUser jan1) two_calls).1
    = xp (demoUser jan1) + total_earned two_calls
  ∧ username (apply_calls (demoUser jan1) two_calls).1 = username (demoUser jan1)
  ∧ password (apply_calls (demoUser jan1) two_calls).1 = password (demoUser jan1).
Proof.
  apply (apply_calls_totals (demoUser jan1) two_calls).
  - repeat constructor; simpl; lia.
  - simpl; lia.
  - simpl; lia.
  - simpl; lia.
  - vm_compute; discriminate.
  - vm_compute; discriminate.
  - vm_compute; discriminate.
Defined.

(** X8.  After every call the profile is dated today, whatever its date
    was; so of two calls in a row on the same day the second one leaves
    the streak as the first one set it. *)
Theorem same_day_call_keeps_streak clock user d1 s1 d2 s2 :
  let user1 := (updateGamification clock user d1 s1).1 in
  let user2 := (updateGamification clock user1 d2 s2).1 in
  lastActiveDate user1 = Some (today clock)
  ∧ lastActiveDate user2 = Some (today clock)
  ∧ streak user2 = streak user1.
Proof.
  intros user1 user2.
  destruct (updateGamification_stats clock user d1 s1) as (_ & _ & Hd1 & _).
  destruct (updateGamification_stats clock user1 d2 s2) as (_ & _ & Hd2 & _).
  fold user1 in Hd1, Hd2. fold user2 in Hd2.
  split_and!; [done | done |].
  pose proof (updateGamification_streak clock user1 d2 s2) as H.
  cbv zeta in H. fold user2 in H.
  rewrite bool_decide_false in H by (intros Hn; by apply Hn).
  by inversion H.
Qed.

(** *** Badges *)

Lemma award_if_here (cond : bool) name (st : list string * list string) :
  cond = true → name ∈ (if cond then awardBadge name st else st).1.
Proof.
  intros ->. destruct st as [bs ns]. unfold awardBadge.
  case_bool_decide; simpl; [done|]. apply elem_of_app. right. apply list_elem_of_here.
Qed.

Lemma award_if_keeps (cond : bool) name x (st : list string * list string) :
  x ∈ st.1 → x ∈ (if cond then awardBadge name st else st).1.
Proof.
  intros Hx. destruct cond; [|done]. destruct st as [bs ns]. unfold awardBadge.
  case_bool_decide; simpl; [done|]. apply elem_of_app. by left.
Qed.

Lemma updateGamification_awards_all clock user d s :
  badges_deserved (updateGamification clock user d s).1.
Proof.
  unfold badges_deserved, updateGamification.
  destruct (bool_decide (lastActiveDate user ≠ Some (today clock)));
    cbv zeta beta iota; cbn [fst snd badges stats totalSessions streak xp];
    (split_and!; intros H%Z.leb_le;
     repeat first [ by apply award_if_here | apply award_if_keeps ]).
Qed.

(** X9.  A call leaves no earned badge out: after it, whatever the
    profile was before, a profile with a session holds First Step, one
    with 10 sessions Dedicated Speaker, one with a streak of 3
    Consistency Champion and one with 500 points XP Hunter; and a call
    with a fluency score of 90 or more leaves Smooth Speaker. *)
Theorem updateGamification_awards clock user d s :
  badges_deserved (updateGamification clock user d s).1
  ∧ (90 <= s → "Smooth Speaker" ∈ badges (updateGamification clock user d s).1).
Proof.
  split; [apply updateGamification_awards_all|].
  unfold updateGamification.
  destruct (bool_decide (lastActiveDate user ≠ Some (today clock)));
    cbv zeta beta iota; cbn [fst snd badges];
    intros H%Z.leb_le;
    repeat first [ by apply award_if_here | apply award_if_keeps ].
Qed.

Lemma updateGamification_awards_witness :
  "Smooth Speaker" ∈ badges (updateGamification on_jan2 (demoUser jan1) 65 95).1.
Proof. apply (proj2 (updateGamification_awards on_jan2 (demoUser jan1) 65 95)). lia. Defined.

End GamificationMore.

(** ** The [users] map, further *)

Section UsersMore.
Import Gamification Notions Accounts.

(** *** What holds of every stored profile *)

(** X10.  Every profile of the [users] map is stored under its own
    [username]. *)
Theorem profile_stored_under_username startDate reqs name user :
  run startDate reqs !! name = Some user → username user = name.
Proof.
  revert name user. unfold run.
  assert (Hseed : ∀ name user, seed startDate !! name = Some user → username user = name).
  { unfold seed. intros name user [<- <-]%lookup_singleton_Some. reflexivity. }
  revert Hseed. generalize (seed startDate).
  induction reqs as [|req reqs IH]; intros users Hall; [done|].
  simpl. apply IH. clear IH. intros name user.
  destruct req as [un pw | tr uid dur clock up]; simpl.
  - unfold post_users. destruct (falsy un || falsy pw); [apply Hall|].
    case_bool_decide; [apply Hall|]. simpl.
    intros [[<- <-] | [_ Hu]]%lookup_insert_Some; [done | by apply Hall].
  - unfold post_coach. set (key := default "Demo User" uid).
    assert (Hupd : ∀ base clock' d s,
               username base = key →
               username (updateGamification clock' base d s).1 = key).
    { intros base clock' d s <-. apply updateGamification_stats. }
    destruct (users !! key) as [base|] eqn:Hbase.
    + assert (username base = key) by (by apply Hall).
      destruct tr as [text|]; [|apply Hall].
      destruct up; [apply Hall| |];
        destruct (updateGamification _ _ _ _) as [user' g] eqn:Hg; simpl;
        (intros [[<- <-] | [_ Hu]]%lookup_insert_Some; [|by apply Hall]);
        change user' with (user', g).1; rewrite <- Hg; by apply Hupd.
    + assert (Hfb : ∀ name user,
                 <[key := fallbackUser key]> users !! name = Some user →
                 username user = name).
      { intros n u [[<- <-] | [_ Hu]]%lookup_insert_Some; [done | by apply Hall]. }
      destruct tr as [text|]; [|apply Hfb].
      destruct up; [apply Hfb| |];
        destruct (updateGamification _ _ _ _) as [user' g] eqn:Hg; simpl;
        (intros [[<- <-] | [_ Hu]]%lookup_insert_Some; [|by apply Hfb]);
        change user' with (user', g).1; rewrite <- Hg; by apply Hupd.
Qed.

Lemma profile_stored_under_username_witness :
  username (demoUser jan1) = "Demo User".
Proof.
  apply (profile_stored_under_username jan1 [PostUsers (Some "ann") (Some "pw")]).
  vm_compute; reflexivity.
Defined.

(** X11.  Every badge of every stored profile is one of the five
    identifiers, and no stored profile lacks a badge its counters have
    earned. *)
Theorem stored_badges_sound startDate reqs name user :
  run startDate reqs !! name = Some user →
  Forall (λ b, b ∈ badge_names) (badges user) ∧ badges_deserved user.
Proof.
  intros Hu. split.
  - revert name user Hu.
    apply (run_preserves (λ user, Forall (λ b, b ∈ badge_names) (badges user))).
    + intros; apply Forall_nil_2.
    + intros; apply Forall_nil_2.
    + intros clock user d s Hall.
      destruct (updateGamification_badges clock user d s) as [-> _].
      apply Forall_app. split; [done | apply updateGamification_newBadges_names].
    + apply Forall_singleton. apply (bool_decide_eq_true_1 _). vm_compute; reflexivity.
  - revert name user Hu. apply (run_preserves badges_deserved).
    + intros clean pw. unfold badges_deserved. simpl. lia.
    + intros userId. unfold badges_deserved. simpl. lia.
    + intros clock user d s _. apply updateGamification_awards_all.
    + unfold badges_deserved. simpl.
      split_and!; [intros _; apply list_elem_of_here | lia | lia | lia].
Qed.

Lemma stored_badges_sound_witness :
  Forall (λ b, b ∈ badge_names) (badges (demoUser jan1))
  ∧ badges_deserved (demoUser jan1).
Proof.
  apply (stored_badges_sound jan1 [] "Demo User"). vm_compute; reflexivity.
Defined.

(** X12.  A stored profile that has no [lastActiveDate] is as it was
    created: no session, no second, no streak, no point, no badge; a
    profile that has one has a streak and a session count of at least 1. *)
Theorem stored_activity_ok startDate reqs name user :
  run startDate reqs !! name = Some user → activity_ok user.
Proof.
  revert name user. apply (run_preserves activity_ok); try done.
  - intros clock user d s Hok. unfold activity_ok in *.
    destruct (updateGamification_stats clock user d s) as (Hn & _ & Hdate & _).
    pose proof (updateGamification_streak clock user d s) as Hs. cbv zeta in Hs.
    rewrite Hdate, Hn. rewrite Hdate in Hs.
    destruct (lastActiveDate user) as [date|] eqn:Hlast.
    + destruct Hok as [H1 H2]. split; [|lia].
      repeat case_bool_decide; inversion Hs; lia.
    + destruct Hok as (-> & _). split; [|lia].
      rewrite bool_decide_true in Hs by done.
      rewrite bool_decide_false in Hs by done. inversion Hs; lia.
Qed.

Lemma stored_activity_ok_witness : activity_ok (demoUser jan1).
Proof. apply (stored_activity_ok jan1 [] "Demo User"). vm_compute; reflexivity. Defined.

(** X13.  For every stored profile the level brackets the points:
    [100 * (level - 1) <= xp < 100 * level]; and a call whose duration is
    at least -100 seconds never lowers the level. *)
Theorem stored_level_brackets_xp startDate reqs name user :
  run startDate reqs !! name = Some user →
  100 * (level user - 1) <= xp user < 100 * level user
  ∧ (∀ clock d s, -100 <= d → level user <= level (updateGamification clock user d s).1).
Proof.
  intros Hu. pose proof (run_level_ok startDate reqs name user Hu) as Hlevel.
  unfold level_ok in Hlevel. split.
  - rewrite Hlevel. pose proof (Z.mod_pos_bound (xp user) 100).
    pose proof (Z.div_mod (xp user) 100). lia.
  - intros clock d s Hd. rewrite updateGamification_level, Hlevel.
    destruct (updateGamification_xp clock user d s) as [-> _].
    pose proof (earned_nonneg d s Hd).
    assert (xp user / 100 <= (xp user + earned d s) / 100)
      by (apply Z.div_le_mono; lia).
    lia.
Qed.

Lemma stored_level_brackets_xp_witness :
  100 * (level (demoUser jan1) - 1) <= xp (demoUser jan1) < 100 * level (demoUser jan1)
  ∧ (∀ clock d s, -100 <= d →
       level (demoUser jan1) <= level (updateGamification clock (demoUser jan1) d s).1).
Proof.
  apply (stored_level_brackets_xp jan1 [] "Demo User"). vm_compute; reflexivity.
Defined.

End UsersMore.

(** ** Registration, login and the profile of [/coach] *)

Section AccountsFacts.
Import Gamification Notions Accounts.

(** The profile [/coach] works on: the stored one, or the fallback. *)
Lemma post_coach_map tr uid dur clock up (users : gmap string User) :
  let key := default "Demo User" uid in
  let base := default (fallbackUser key) (users !! key) in
  ∃ user',
    (post_coach tr uid dur clock up users).2 = <[key := user']> users
    ∧ username user' = username base
    ∧ password user' = password base
    ∧ ((tr = None ∨ up = ChatFails) →
       user' = base ∧ (post_coach tr uid dur clock up users).1 = ServerError).
Proof.
  intros key base. unfold post_coach. fold key. subst base.
  destruct (users !! key) as [stored|] eqn:Hkey; cbn [from_option id];
    (destruct tr as [text|];
     [destruct up;
      [ | match goal with |- context [updateGamification ?c ?b ?d ?s] =>
            destruct (updateGamification_stats c b d s) as (_ & _ & _ & Hn & Hp);
            destruct (updateGamification c b d s) as [u g]; cbn [fst snd] in *
          end ..] | ]).
  - exists stored. by rewrite insert_id.
  - exists u. split_and!; [done | done | done |]. by intros [|].
  - exists u. split_and!; [done | done | done |]. by intros [|].
  - exists stored. by rewrite insert_id.
  - by exists (fallbackUser key).
  - exists u. rewrite insert_insert_eq. split_and!; [done | done | done |]. by intros [|].
  - exists u. rewrite insert_insert_eq. split_and!; [done | done | done |]. by intros [|].
  - by exists (fallbackUser key).
Qed.

(** No request removes a profile or changes its name or its password. *)
Lemma handle_keeps_profile (users : gmap string User) req name user :
  users !! name = Some user →
  ∃ user', (handle users req).2 !! name = Some user'
           ∧ username user' = username user ∧ password user' = password user.
Proof.
  intros Hu. destruct req as [un pw | tr uid dur clock up]; simpl.
  - unfold post_users. destruct (falsy un || falsy pw); [by exists user|].
    case_bool_decide as Hfree; [by exists user|]. simpl.
    exists user. split; [|done]. rewrite lookup_insert_ne; [done|].
    intros <-. apply Hfree. by rewrite Hu.
  - destruct (post_coach_map tr uid dur clock up users) as (user' & -> & Hn & Hp & _).
    destruct (decide (default "Demo User" uid = name)) as [<-|Hne].
    + rewrite lookup_insert_eq. exists user'. rewrite Hu in Hn, Hp. done.
    + rewrite lookup_insert_ne by done. by exists user.
Qed.

Lemma requests_keep_profile (users : gmap string User) reqs name user :
  users !! name = Some user →
  ∃ user', foldl (λ users req, (handle users req).2) users reqs !! name = Some user'
           ∧ username user' = username user ∧ password user' = password user.
Proof.
  revert users user. induction reqs as [|req reqs IH]; intros users user Hu.
  - by exists user.
  - simpl. destruct (handle_keeps_profile users req name user Hu) as (u1 & H1 & Hn1 & Hp1).
    destruct (IH _ u1 H1) as (u2 & H2 & Hn2 & Hp2).
    exists u2. split; [done|]. by rewrite Hn2, Hp2.
Qed.

(** X14.  Registration is a round trip with login, for good: when
    [POST /users] registers a name, then after any further requests a
    login under that name with the registered password succeeds, and a
    login with any other password, or none, is refused as a wrong
    password.  The name is the trimmed [username] of the request. *)
Theorem registered_login_lasts (users : gmap string User) un pw clean users' more :
  post_users un pw users = (Registered clean, users') →
  let final := foldl (λ users req, (handle users req).2) users' more in
  clean = JsString.trim (default "" un)
  ∧ login (Some clean) pw final = LoginOk
  ∧ (∀ other, other ≠ pw → login (Some clean) other final = LoginWrongPassword).
Proof.
  unfold post_users. destruct (falsy un || falsy pw) eqn:Hfalsy; [done|].
  case_bool_decide; [done|]. intros [= <- <-].
  apply orb_false_iff in Hfalsy as [_ Hpw].
  destruct pw as [p|]; [|done]. cbn [from_option id].
  set (clean := JsString.trim (default "" un)).
  destruct (requests_keep_profile
              (<[clean := newUser clean p]> users) more clean (newUser clean p))
    as (user' & Hfinal & _ & Hp); [apply lookup_insert_eq|].
  unfold login. simpl. rewrite Hfinal, Hp. simpl.
  split_and!; [done | by rewrite bool_decide_true |].
  intros other Hother. by rewrite bool_decide_false.
Qed.

Lemma registered_login_lasts_witness :
  "bob" = JsString.trim (default "" (Some " bob "))
  ∧ login (Some "bob") (Some "s3cret")
      (foldl (λ users req, (handle users req).2)
         (<["bob" := newUser "bob" "s3cret"]> (seed jan1))
         [PostUsers (Some "bob") (Some "other");
          PostCoach (Some "hello there") (Some "bob") (Some 30) on_jan2 Replies])
    = LoginOk
  ∧ (∀ other, other ≠ Some "s3cret" →
       login (Some "bob") other
         (foldl (λ users req, (handle users req).2)
            (<["bob" := newUser "bob" "s3cret"]> (seed jan1))
            [PostUsers (Some "bob") (Some "other");
             PostCoach (Some "hello there") (Some "bob") (Some 30) on_jan2 Replies])
       = LoginWrongPassword).
Proof.
  apply (registered_login_lasts (seed jan1) (Some " bob ") (Some "s3cret") "bob").
  vm_compute; reflexivity.
Defined.

(** The name is looked up as it is sent: the name registered from
    [ bob ] is [bob], and a login as [ bob ] finds nobody. *)
Example login_is_not_trimmed :
  (post_users (Some " bob ") (Some "pw") (seed jan1)).1 = Registered "bob"
  ∧ login (Some " bob ") (Some "pw") (post_users (Some " bob ") (Some "pw") (seed jan1)).2
    = LoginNotFound
  ∧ login (Some "Demo User") (Some "123") (seed jan1) = LoginOk.
Proof. split_and!; vm_compute; reflexivity. Qed.

(** X15.  Registration never touches a stored profile: every profile is
    after [POST /users] what it was before, and a request for a name whose
    trimmed form is taken, or without a name or a password, is refused
    and changes nothing. *)
Theorem post_users_never_overwrites (users : gmap string User) un pw :
  (∀ name user, users !! name = Some user →
                (post_users un pw users).2 !! name = Some user)
  ∧ (falsy un = true ∨ falsy pw = true
     ∨ is_Some (users !! JsString.trim (default "" un)) →
     ∃ error, post_users un pw users = (BadRequest error, users)).
Proof.
  unfold post_users. split.
  - intros name user Hu. destruct (falsy un || falsy pw); [done|].
    case_bool_decide as Hfree; [done|]. simpl.
    rewrite lookup_insert_ne; [done|]. intros <-. apply Hfree. by rewrite Hu.
  - intros Hbad. destruct (falsy un) eqn:Hun; [by eexists|].
    destruct (falsy pw) eqn:Hpw; [by eexists|]. simpl.
    destruct Hbad as [? | [? | Htaken]]; [done | done |].
    rewrite bool_decide_true by done. by eexists.
Qed.

Lemma post_users_never_overwrites_witness :
  ∃ error,
    post_users (Some "  Demo User ") (Some "mine") (seed jan1)
    = (BadRequest error, seed jan1).
Proof.
  apply (proj2 (post_users_never_overwrites (seed jan1) (Some "  Demo User ") (Some "mine"))).
  right. right. vm_compute. eauto.
Defined.

(** X16.  [/coach] writes one profile, the one of its [userId], or of
    the demo user when the body names none: every other profile is
    untouched; that one exists afterwards whatever the answer, and when
    the transcript is missing or the language service fails the answer is
    the error and the profile is the stored one or, for an unknown
    [userId], the fallback profile just created. *)
Theorem post_coach_writes_one_profile tr uid dur clock up (users : gmap string User) :
  let key := default "Demo User" uid in
  let users' := (post_coach tr uid dur clock up users).2 in
  (∀ name, name ≠ key → users' !! name = users !! name)
  ∧ is_Some (users' !! key)
  ∧ ((tr = None ∨ up = ChatFails) →
     (post_coach tr uid dur clock up users).1 = ServerError
     ∧ users' !! key = Some (default (fallbackUser key) (users !! key))).
Proof.
  intros key users'.
  destruct (post_coach_map tr uid dur clock up users) as (user' & Hmap & _ & _ & Hfail).
  fold key users' in Hmap, Hfail. rewrite Hmap. split_and!.
  - intros name Hne. by rewrite lookup_insert_ne.
  - rewrite lookup_insert_eq. eauto.
  - intros Hbad. destruct (Hfail Hbad) as [-> Hresp]. by rewrite lookup_insert_eq.
Qed.

Lemma post_coach_writes_one_profile_witness :
  (post_coach None (Some "zoe") None on_jan2 Replies (seed jan1)).1 = ServerError
  ∧ (post_coach None (Some "zoe") None on_jan2 Replies (seed jan1)).2 !! "zoe"
    = Some (default (fallbackUser "zoe") (seed jan1 !! "zoe")).
Proof.
  apply (proj2 (proj2 (post_coach_writes_one_profile
                         None (Some "zoe") None on_jan2 Replies (seed jan1)))).
  by left.
Defined.

(** X17.  The profile [/coach] creates for an unknown [userId] has no
    password: after the call, and after any further requests, a login
    under that name that sends no password succeeds, and a login that
    sends one is refused. *)
Theorem coach_profile_has_no_password tr uid dur clock up (users : gmap string User) more :
  let key := default "Demo User" uid in
  users !! key = None →
  let final :=
    foldl (λ users req, (handle users req).2)
          (post_coach tr uid dur clock up users).2 more in
  login (Some key) None final = LoginOk
  ∧ (∀ p, login (Some key) (Some p) final = LoginWrongPassword).
Proof.
  intros key Hnew final.
  destruct (post_coach_map tr uid dur clock up users) as (user' & Hmap & _ & Hp & _).
  fold key in Hmap, Hp. rewrite Hnew in Hp. simpl in Hp.
  destruct (requests_keep_profile (post_coach tr uid dur clock up users).2 more key user')
    as (user'' & Hfinal & _ & Hp'); [rewrite Hmap; apply lookup_insert_eq|].
  fold final in Hfinal. unfold login. simpl. rewrite Hfinal, Hp', Hp.
  split; [by rewrite bool_decide_true | intros p; by rewrite bool_decide_false].
Qed.

Lemma coach_profile_has_no_password_witness :
  login (Some "zoe") None
    (foldl (λ users req, (handle users req).2)
       (post_coach (Some "hello") (Some "zoe") None on_jan2 Replies (seed jan1)).2
       [PostUsers (Some "zoe") (Some "late")])
  = LoginOk
  ∧ (∀ p, login (Some "zoe") (Some p)
            (foldl (λ users req, (handle users req).2)
               (post_coach (Some "hello") (Some "zoe") None on_jan2 Replies (seed jan1)).2
               [PostUsers (Some "zoe") (Some "late")])
          = LoginWrongPassword).
Proof.
  apply (coach_profile_has_no_password (Some "hello") (Some "zoe") None on_jan2 Replies
           (seed jan1) [PostUsers (Some "zoe") (Some "late")]).
  vm_compute; reflexivity.
Defined.

End AccountsFacts.

(** ** Coaching and the session ledger *)

Section LedgerFacts.
Import Gamification Notions Ledger.

(** *** One call of [/coach] *)

Lemma coach_users tr mode uid dur clock chat now s :
  users (coach tr mode uid dur clock chat now s).2
  = (post_coach tr uid dur clock (upstream_of chat) (users s)).2.
Proof.
  unfold coach, post_coach.
  destruct (users s !! default "Demo User" uid); (destruct tr as [text|]; [|done]);
    destruct chat; simpl; try done;
    by destruct (updateGamification _ _ _ _).
Qed.

(** What one call does to the ledger and what it answers. *)
Lemma coach_ledger tr mode uid dur clock chat now s :
  match (coach tr mode uid dur clock chat now s).1 with
  | CoachOk session profile g =>
      sessions (coach tr mode uid dur clock chat now s).2 = sessions s ++ [session]
      ∧ sessionCounter (coach tr mode uid dur clock chat now s).2 = sessionCounter s + 1
      ∧ id session = sessionCounter s
      ∧ userId session = default "Demo User" uid
      ∧ createdAt session = now
      ∧ tr = Some (transcript session)
      ∧ score session = Heuristics.score (Heuristics.analyzeHeuristics (transcript session))
      ∧ (confidenceScore session = score session
         ∨ ∃ ai c, chat = ChatObject ai ∧ ai_confidenceScore ai = Some c ∧ c ≠ 0
                   ∧ confidenceScore session = c)
      ∧ users (coach tr mode uid dur clock chat now s).2 !! userId session = Some profile
  | CoachError =>
      sessions (coach tr mode uid dur clock chat now s).2 = sessions s
      ∧ sessionCounter s <= sessionCounter (coach tr mode uid dur clock chat now s).2
        <= sessionCounter s + 1
  end.
Proof.
  unfold coach.
  assert (Hconf : ∀ ai sc,
             confidence_or (ai_confidenceScore ai) sc = sc
             ∨ ∃ ai' c, ChatObject ai = ChatObject ai' ∧ ai_confidenceScore ai' = Some c
                        ∧ c ≠ 0 ∧ confidence_or (ai_confidenceScore ai) sc = c).
  { intros ai sc. unfold confidence_or.
    destruct (ai_confidenceScore ai) as [c|] eqn:Hc; [|by left].
    destruct (Z.eqb_spec c 0); [by left|]. right. by exists ai, c. }
  assert (Hfb : ∀ sc, confidence_or (Some sc) sc = sc).
  { intros sc. unfold confidence_or. by destruct (sc =? 0). }
  destruct (users s !! default "Demo User" uid) as [stored|];
    (destruct tr as [text|]; [|simpl; split; [done|lia]]);
    (destruct chat as [| | |ai]; cbn [fst snd];
     [ simpl; split; [done|lia]
     | destruct (updateGamification _ _ _ _) as [u g]; cbn -[confidence_or];
       split_and!; try done; first [left; apply Hfb | apply lookup_insert_eq]
     | destruct (updateGamification _ _ _ _) as [u g]; cbn; split; [done|lia]
     | destruct (updateGamification _ _ _ _) as [u g]; cbn -[confidence_or];
       split_and!; try done; first [apply Hconf | apply lookup_insert_eq] ]).
Qed.

Lemma confidence_or_nonzero confidence sc : sc ≠ 0 → confidence_or confidence sc ≠ 0.
Proof.
  intros Hsc. unfold confidence_or. destruct confidence as [c|]; [|done].
  by destruct (Z.eqb_spec c 0).
Qed.


(** *** The ledger after any sequence of requests *)

Lemma run_snoc startDate reqs req :
  run startDate (reqs ++ [req]) = step (run startDate reqs) req.
Proof. unfold run. by rewrite foldl_snoc. Qed.

Lemma step_ledger s req :
  (sessions (step s req) = sessions s
   ∧ sessionCounter s <= sessionCounter (step s req) <= sessionCounter s + 1)
  ∨ ∃ session,
      sessions (step s req) = sessions s ++ [session]
      ∧ sessionCounter (step s req) = sessionCounter s + 1
      ∧ id session = sessionCounter s
      ∧ 30 <= score session <= 100
      ∧ confidenceScore session ≠ 0
      ∧ score session = Heuristics.score (Heuristics.analyzeHeuristics (transcript session))
      ∧ is_Some (users (step s req) !! userId session).
Proof.
  destruct req as [un pw | tr mode uid dur clock chat now]; cbn [step].
  - left. simpl. split; [done|lia].
  - pose proof (coach_ledger tr mode uid dur clock chat now s) as H.
    destruct (coach tr mode uid dur clock chat now s).1 as [session profile g|];
      [right|by left].
    destruct H as (Hs & Hc & Hid & _ & _ & _ & Hscore & Hconf & Hprofile).
    pose proof (analyzeHeuristics_score (transcript session)) as (_ & Hrange & _).
    cbv zeta in Hrange. rewrite <- Hscore in Hrange.
    exists session. split_and!; try done; try lia; try (rewrite Hprofile; eauto).
    destruct Hconf as [-> | (ai & c & _ & _ & Hc0 & ->)]; [lia|done].
Qed.

Lemma step_keeps_profile s req name :
  is_Some (users s !! name) → is_Some (users (step s req) !! name).
Proof.
  intros [user Hu].
  destruct (handle_keeps_profile (users s) (users_request req) name user Hu)
    as (user' & Hu' & _).
  destruct req as [un pw | tr mode uid dur clock chat now]; cbn [step users_request handle] in *.
  - simpl. eauto.
  - rewrite coach_users. eauto.
Qed.

(** X19.  In the ledger after any sequence of requests the ids grow
    strictly from entry to entry, so no two entries share one, and each
    lies between 1 and the counter, the counter excluded; every entry has
    a score between 30 and 100, which is the heuristic score of its
    transcript, a confidence that is not 0, and a [userId] that has a
    profile in the [users] map. *)
Theorem ledger_entries_sound startDate reqs :
  let s := run startDate reqs in
  StronglySorted (λ a b, id a < id b) (sessions s)
  ∧ NoDup (id <$> sessions s)
  ∧ Forall (entry_ok s) (sessions s)
  ∧ Z.of_nat (length (sessions s)) < sessionCounter s.
Proof.
  induction reqs as [|req reqs IH] using rev_ind.
  - simpl. split_and!; [constructor | constructor | constructor | done].
  - rewrite run_snoc. cbv zeta in IH |- *. destruct IH as (Hsorted & Hnodup & Hall & Hlen).
    set (s := run startDate reqs) in *.
    assert (Hkeep : Forall (entry_ok (step s req)) (sessions s)).
    { eapply Forall_impl; [exact Hall|].
      intros x (Hid & Hscore & Hconf & Hsc & Hprofile).
      destruct (step_ledger s req) as [[_ Hc] | (y & _ & Hc & _)];
        (split_and!; try done; try lia; by apply step_keeps_profile). }
    destruct (step_ledger s req)
      as [[Hs Hc] | (y & Hs & Hc & Hid & Hscore & Hconf & Hsc & Hprofile)];
      rewrite Hs.
    + split_and!; [done | done | done | lia].
    + assert (Hbelow : ∀ x, x ∈ sessions s → id x < id y).
      { intros x Hx. rewrite Forall_forall in Hall.
        destruct (Hall x Hx) as (Hidx & _). lia. }
      split_and!.
      * apply StronglySorted_app_2; [|done|repeat constructor].
        intros x1 x2 Hx1 ->%list_elem_of_singleton. by apply Hbelow.
      * rewrite fmap_app. apply NoDup_app. split_and!; [done| |apply NoDup_singleton].
        intros i (x & Hi & Hx)%list_elem_of_fmap Hy%list_elem_of_singleton.
        specialize (Hbelow x Hx). simpl in Hy. lia.
      * apply Forall_app. split; [done|]. apply Forall_singleton.
        split_and!; try done; lia.
      * rewrite length_app. simpl. lia.
Qed.

(** A [null] reply uses up an id: the next session gets 2, not 1. *)
Example ledger_ids_skip :
  id <$> sessions (run jan1 [Coach (Some "hello") None None None on_jan2 ChatNull 5000;
                            Coach (Some "hello") None None None on_jan2 some_reply 6000])
  = [2].
Proof. vm_compute; reflexivity. Qed.

(** X20.  The ledger is append-only: the ledger after some requests is a
    prefix of the ledger after more requests, and the counter never goes
    down. *)
Theorem ledger_append_only startDate reqs more :
  sessions (run startDate reqs) `prefix_of` sessions (run startDate (reqs ++ more))
  ∧ sessionCounter (run startDate reqs) <= sessionCounter (run startDate (reqs ++ more)).
Proof.
  induction more as [|req more IH] using rev_ind.
  - rewrite app_nil_r. split; [done|lia].
  - rewrite app_assoc, run_snoc. destruct IH as [Hpre Hc].
    destruct (step_ledger (run startDate (reqs ++ more)) req)
      as [[Hs Hc'] | (y & Hs & Hc' & _)]; rewrite Hs.
    + split; [done|lia].
    + split; [by apply prefix_app_r|lia].
Qed.

(** *** [GET /sessions/:userId] *)

Lemma insert_desc_perm x l : insert_desc x l ≡ₚ x :: l.
Proof.
  induction l as [|y l IH]; simpl; [done|].
  destruct (createdAt y <=? createdAt x); [done|].
  rewrite IH. apply Permutation_swap.
Qed.

Lemma sort_desc_perm l : sort_desc l ≡ₚ l.
Proof.
  induction l as [|x l IH]; simpl; [done|].
  rewrite insert_desc_perm. by rewrite IH.
Qed.

Lemma insert_desc_sorted x l :
  StronglySorted later_first l → StronglySorted later_first (insert_desc x l).
Proof.
  induction 1 as [|y l Hl IH Hy]; simpl; [repeat constructor|].
  destruct (Z.leb_spec (createdAt y) (createdAt x)) as [Hle|Hlt].
  - constructor; [by constructor|]. constructor; [done|].
    eapply Forall_impl; [exact Hy|]. unfold later_first. intros z Hz. lia.
  - constructor; [done|]. rewrite insert_desc_perm. constructor; [|done].
    unfold later_first. lia.
Qed.

Lemma sort_desc_sorted l : StronglySorted later_first (sort_desc l).
Proof.
  induction l as [|x l IH]; simpl; [constructor|]. by apply insert_desc_sorted.
Qed.

Lemma insert_desc_created_at t x l :
  created_at t (insert_desc x l) = created_at t (x :: l).
Proof.
  unfold created_at. induction l as [|y l IH]; simpl; [done|].
  destruct (Z.leb_spec (createdAt y) (createdAt x)) as [Hle|Hlt]; [done|].
  simpl. rewrite IH. simpl.
  repeat case_bool_decide; try done. lia.
Qed.

Lemma sort_desc_created_at t l : created_at t (sort_desc l) = created_at t l.
Proof.
  induction l as [|x l IH]; simpl; [done|].
  rewrite insert_desc_created_at. unfold created_at in *. simpl. by rewrite IH.
Qed.

(** X21.  [GET /sessions/:userId] returns the entries of the ledger that
    belong to that user, each once and no other, the latest first, and
    entries created at the same instant in the order of the ledger. *)
Theorem get_sessions_latest_first uid s :
  get_sessions uid s ≡ₚ sessions_of uid (sessions s)
  ∧ Forall (λ x, userId x = uid) (get_sessions uid s)
  ∧ StronglySorted later_first (get_sessions uid s)
  ∧ (∀ t, created_at t (get_sessions uid s)
          = created_at t (sessions_of uid (sessions s))).
Proof.
  unfold get_sessions. fold (sessions_of uid (sessions s)). split_and!.
  - apply sort_desc_perm.
  - rewrite sort_desc_perm. unfold sessions_of.
    apply Forall_forall. intros x Hx%list_elem_of_In%filter_In.
    destruct Hx as [_ Hx]. by apply bool_decide_eq_true in Hx.
  - apply sort_desc_sorted.
  - intros t. apply sort_desc_created_at.
Qed.

Example get_sessions_ex :
  id <$> get_sessions "Demo User"
           (run jan1 [Coach (Some "one") None None None on_jan2 some_reply 5000;
                      Coach (Some "two") None (Some "ann") None on_jan2 some_reply 6000;
                      Coach (Some "three") None None None on_jan2 some_reply 7000;
                      Coach (Some "four") None None None on_jan2 some_reply 7000])
  = [3; 4; 1].
Proof. vm_compute; reflexivity. Qed.

End LedgerFacts.

(** ** Challenge state machine, further *)

Section ChallengeMore.
Import JsString Challenge Notions.

(** *** The repetition scan *)

(** The scan by index from [length pre + 1] on, over [pre ++ p :: ws],
    finds what [first_pair] reads off [p :: ws]. *)
Lemma find_repeat_from (pre : list string) (p : string) (ws : list string) :
  (λ i, default "" ((pre ++ p :: ws) !! i))
    <$> List.find (λ i, bool_decide ((pre ++ p :: ws) !! i
                                     = (pre ++ p :: ws) !! (i - 1)%nat))
          (seq (S (length pre)) (length ws))
  = first_pair (p :: ws).
Proof.
  revert pre p. induction ws as [|w ws IH]; intros pre p; [done|].
  cbn [length seq List.find first_pair].
  assert (Hi : (pre ++ p :: w :: ws) !! S (length pre) = Some w).
  { rewrite lookup_app_r by lia.
    by replace (S (length pre) - length pre)%nat with 1%nat by lia. }
  assert (Hp : (pre ++ p :: w :: ws) !! length pre = Some p).
  { rewrite lookup_app_r by lia. by rewrite Nat.sub_diag. }
  replace (S (length pre) - 1)%nat with (length pre) by lia.
  rewrite Hi, Hp.
  assert (Heq : bool_decide (Some w = Some p) = bool_decide (w = p)).
  { apply bool_decide_ext. split; congruence. }
  rewrite Heq. destruct (bool_decide (w = p)).
  - simpl. by rewrite Hi.
  - replace (pre ++ p :: w :: ws) with ((pre ++ [p]) ++ w :: ws)
      by (by rewrite <- app_assoc).
    replace (S (S (length pre))) with (S (length (pre ++ [p])))
      by (rewrite length_app; simpl; lia).
    apply IH.
Qed.

Lemma first_repeat_pair (words : list string) :
  (λ i, default "" (words !! i)) <$> first_repeat words = first_pair words.
Proof.
  unfold first_repeat. destruct words as [|p ws]; [done|].
  cbn [length]. replace (S (length ws) - 1)%nat with (length ws) by lia.
  apply (find_repeat_from [] p ws).
Qed.

Lemma first_pair_Some (words : list string) w :
  first_pair words = Some w →
  ∃ pre post, words = pre ++ w :: w :: post ∧ no_repeat (pre ++ [w]).
Proof.
  revert w. induction words as [|a [|b rest] IH]; intros w; [done | done |].
  cbn [first_pair]. case_bool_decide as Hab.
  - intros [= <-]. subst a. exists [], rest. split; [done|].
    intros [|x [|y pre]] c post; simpl; intros [=].
  - intros (pre & post & Heq & Hno)%IH. exists (a :: pre), post.
    split; [by rewrite Heq|].
    intros [|x pre'] c post' Hbad; simplify_eq/=.
    + destruct pre as [|y pre]; simplify_eq/=.
    + by eapply Hno.
Qed.

Lemma first_pair_None (words : list string) :
  first_pair words = None ↔ no_repeat words.
Proof.
  split.
  - induction words as [|a [|b rest] IH]; intros Hnone pre c post Hbad.
    + by destruct pre.
    + destruct pre as [|x [|y pre]]; simplify_eq/=.
    + cbn [first_pair] in Hnone. case_bool_decide as Hab; [done|].
      destruct pre as [|x pre]; simplify_eq/=.
      by eapply (IH Hnone).
  - intros Hno. destruct (first_pair words) as [w|] eqn:Hw; [|done].
    destruct (first_pair_Some words w Hw) as (pre & post & -> & _).
    by destruct (Hno pre w post).
Qed.

Lemma first_filler_None (words : list string) :
  Forall (λ w, w ∉ fillers) words → first_filler words = None.
Proof.
  unfold first_filler. induction 1 as [|w ws Hw _ IH]; [done|]. simpl.
  unfold is_filler at 1. by rewrite bool_decide_false.
Qed.

(** What the two scans give on a transcript that is not empty. *)
Lemma instant_fail_cases (cleanText : string) :
  cleanText ≠ "" →
  instant_fail cleanText
  = match first_filler (tokens cleanText) with
    | Some word => Some (stuttered word)
    | None => repetition <$> first_pair (tokens cleanText)
    end.
Proof.
  intros Hne. unfold instant_fail.
  destruct cleanText as [|a rest]; [done|]. cbn [String.length Nat.ltb Nat.leb].
  destruct (first_filler _); [done|].
  rewrite <- first_repeat_pair. by destruct (first_repeat _).
Qed.

(** *** Answers and records *)

(** A tick keeps the record exactly when it answers ok. *)
Lemma tick_session_answers c transcript now :
  (∃ c', tick_session c transcript now = (StatusOk, Some c'))
  ∨ (∃ reason, tick_session c transcript now = (StatusFail reason, None)).
Proof.
  unfold tick_session. destruct (instant_fail _); [right; eauto|].
  match goal with |- context [isSpeaking ?x] => destruct (isSpeaking x) end;
    [|left; eauto].
  case_bool_decide; [left; eauto|].
  match goal with |- context [3000 <? ?x] => destruct (3000 <? x) end;
    [right|left]; eauto.
Qed.

(** X22.  A tick on an active challenge either answers ok and keeps the
    record, or answers fail and removes it; after a fail every tick of
    that user answers not found, whatever it says, until a new start. *)
Theorem failed_challenge_is_gone (m : gmap string Session) u c transcript now :
  m !! u = Some c →
  (∃ c', tick (Some u) transcript now m = (StatusOk, <[u := c']> m))
  ∨ (∃ reason,
       tick (Some u) transcript now m = (StatusFail reason, delete u m)
       ∧ ∀ transcript' now',
           tick (Some u) transcript' now' (delete u m) = (NotFound, delete u m)).
Proof.
  intros Hc. rewrite (tick_present m u c) by done.
  destruct (tick_session_answers c transcript now) as [[c' ->] | [reason ->]].
  - left. eauto.
  - right. exists reason. split; [done|]. intros transcript' now'.
    apply tick_absent. apply lookup_delete_eq.
Qed.

Lemma failed_challenge_is_gone_witness :
  (∃ c', tick (Some "ann") (Some "um") 1500 just_started
         = (StatusOk, <["ann" := c']> just_started))
  ∨ (∃ reason,
       tick (Some "ann") (Some "um") 1500 just_started
       = (StatusFail reason, delete "ann" just_started)
       ∧ ∀ transcript' now',
           tick (Some "ann") transcript' now' (delete "ann" just_started)
           = (NotFound, delete "ann" just_started)).
Proof.
  apply (failed_challenge_is_gone just_started "ann"
           {| startTime := 1000; lastTranscript := ""; lastChangeTime := 1000;
              isSpeaking := false |}).
  vm_compute; reflexivity.
Defined.

(** X23.  A challenge request touches the record of its own user only:
    the record of every other user is after the request what it was
    before; and a start without a user, or with the empty name, is
    refused and changes nothing. *)
Theorem challenge_requests_are_local (m : gmap string Session) req :
  (∀ v, request_user req ≠ Some v → (handle m req).2 !! v = m !! v)
  ∧ (∀ t1 t2, handle m (Start None t1 t2) = (BadRequest, m)
              ∧ handle m (Start (Some "") t1 t2) = (BadRequest, m)).
Proof.
  split; [|done].
  intros v Hv. destruct req as [[[|a u]|] t1 t2 | [u|] transcript now]; simpl in *; try done.
  - rewrite lookup_insert_ne; [done|congruence].
  - destruct (m !! u) as [c|] eqn:Hc.
    + rewrite (tick_present m u c) by done.
      destruct (tick_session c transcript now) as [r [c'|]]; simpl.
      * rewrite lookup_insert_ne; [done|congruence].
      * rewrite lookup_delete_ne; [done|congruence].
    + by rewrite tick_absent.
Qed.

Lemma challenge_requests_are_local_witness :
  (handle just_started (Tick (Some "bob") (Some "um") 1500)).2 !! "ann"
  = just_started !! "ann".
Proof.
  apply (proj1 (challenge_requests_are_local just_started
                  (Tick (Some "bob") (Some "um") 1500))).
  discriminate.
Defined.

(** *** Silence, repetition and progress *)

Lemma instant_fail_not_silence cleanText reason :
  instant_fail cleanText = Some reason → reason ≠ silence.
Proof.
  unfold instant_fail. destruct (0 <? String.length cleanText)%nat; [|done].
  destruct (first_filler _); [intros [= <-]; discriminate|].
  destruct (first_repeat _); [intros [= <-]; discriminate|done].
Qed.

(** X24.  A tick fails for silence only on a stalled challenge: the
    record was speaking, the trimmed transcript is the stored one, and
    more than 3000 ms have passed since the last change.  In particular
    the tick that first hears speech never fails for silence. *)
Theorem silence_only_when_stalled (m : gmap string Session) u c transcript now m' :
  m !! u = Some c →
  tick (Some u) transcript now m = (StatusFail silence, m') →
  isSpeaking c = true
  ∧ trim (default "" transcript) = lastTranscript c
  ∧ 3000 < now - lastChangeTime c.
Proof.
  intros Hc. rewrite (tick_present m u c) by done.
  unfold tick_session.
  destruct (instant_fail (trim (default "" transcript))) as [reason|] eqn:Hfail.
  { intros [= Hr _]. by apply instant_fail_not_silence in Hfail. }
  destruct c as [t0 last changed [|]]; cbn [isSpeaking lastTranscript lastChangeTime negb andb].
  - case_bool_decide as Hne; [done|].
    destruct (Z.ltb_spec 3000 (now - changed)); [|done].
    intros _. split_and!; [done | | done].
    by destruct (decide (trim (default "" transcript) = last)).
  - destruct (0 <? String.length _)%nat; cbn [isSpeaking lastTranscript lastChangeTime];
      [|done].
    rewrite bool_decide_false by (intros Hn; by apply Hn).
    by destruct (Z.ltb_spec 3000 (now - now)); [lia|].
Qed.

Lemma silence_only_when_stalled_witness :
  isSpeaking (heard (heard (Build_Session 1000 "" 1000 false) "hello world" 1500)
                "hello world" 1500) = true
  ∧ trim (default "" (Some " hello world "))
    = lastTranscript (heard (heard (Build_Session 1000 "" 1000 false) "hello world" 1500)
                        "hello world" 1500)
  ∧ 3000 < 4501 - lastChangeTime (heard (heard (Build_Session 1000 "" 1000 false)
                                           "hello world" 1500) "hello world" 1500).
Proof.
  apply (silence_only_when_stalled
           (run [Start (Some "ann") 1000 1000; Tick (Some "ann") (Some "hello world") 1500])
           "ann" _ (Some " hello world ") 4501
           (delete "ann" (run [Start (Some "ann") 1000 1000;
                               Tick (Some "ann") (Some "hello world") 1500])));
    vm_compute; reflexivity.
Defined.

(** X25.  For every active challenge, a tick none of whose tokens is a
    filler and one of whose tokens repeats its predecessor fails with the
    reason that quotes the first such token twice, in lower case, and the
    record is deleted. *)
Theorem tick_repeat_fails (m : gmap string Session) u c transcript now pre w post :
  m !! u = Some c →
  Forall (λ x, x ∉ fillers) (tokens (trim (default "" transcript))) →
  tokens (trim (default "" transcript)) = pre ++ w :: w :: post →
  ∃ pre' w' post',
    tokens (trim (default "" transcript)) = pre' ++ w' :: w' :: post'
    ∧ no_repeat (pre' ++ [w'])
    ∧ tick (Some u) transcript now m = (StatusFail (repetition w'), delete u m).
Proof.
  intros Hc Hfill Htok.
  set (cleanText := trim (default "" transcript)) in *.
  assert (Hne : cleanText ≠ "").
  { intros Hempty. rewrite Hempty in Htok. by destruct pre. }
  destruct (first_pair (tokens cleanText)) as [w'|] eqn:Hpair.
  - destruct (first_pair_Some _ _ Hpair) as (pre' & post' & Heq & Hno).
    exists pre', w', post'. split_and!; [done | done |].
    rewrite (tick_present m u c) by done.
    rewrite (tick_session_instant_fail c transcript now (repetition w')); [done|].
    fold cleanText. rewrite instant_fail_cases by done.
    by rewrite first_filler_None, Hpair.
  - apply first_pair_None in Hpair. by destruct (Hpair pre w post).
Qed.

Lemma tick_repeat_fails_witness :
  ∃ pre' w' post',
    tokens (trim (default "" (Some "We we  WE go go"))) = pre' ++ w' :: w' :: post'
    ∧ no_repeat (pre' ++ [w'])
    ∧ tick (Some "ann") (Some "We we  WE go go") 1500 just_started
      = (StatusFail (repetition w'), delete "ann" just_started).
Proof.
  apply (tick_repeat_fails just_started "ann"
           {| startTime := 1000; lastTranscript := ""; lastChangeTime := 1000;
              isSpeaking := false |}
           (Some "We we  WE go go") 1500 ["we"; "we"; "we"] "go" []).
  - vm_compute; reflexivity.
  - apply (bool_decide_eq_true_1 _). vm_compute; reflexivity.
  - vm_compute; reflexivity.
Defined.

Example tick_we_we :
  (tick (Some "ann") (Some "We we  WE go go") 1500 just_started).1
  = StatusFail (repetition "we").
Proof. vm_compute; reflexivity. Qed.

(** X26.  For every active challenge, a tick that is not empty, has no
    filler and no repeat, and is the first speech heard or differs from
    the stored transcript, answers ok at any time, however late: it
    leaves the record speaking, with this transcript and this instant as
    the last change. *)
Theorem tick_progress (m : gmap string Session) u c transcript now :
  m !! u = Some c →
  trim (default "" transcript) ≠ "" →
  Forall (λ x, x ∉ fillers) (tokens (trim (default "" transcript))) →
  no_repeat (tokens (trim (default "" transcript))) →
  isSpeaking c = false ∨ trim (default "" transcript) ≠ lastTranscript c →
  tick (Some u) transcript now m
  = (StatusOk, <[u := heard c (trim (default "" transcript)) now]> m).
Proof.
  intros Hc Hne Hfill Hno Hnew.
  rewrite (tick_present m u c) by done.
  unfold tick_session, heard.
  set (cleanText := trim (default "" transcript)) in *.
  rewrite instant_fail_cases by done.
  rewrite first_filler_None by done.
  rewrite (proj2 (first_pair_None _)) by done. cbn [fmap option_fmap option_map].
  assert (Hlen : (0 <? String.length cleanText)%nat = true) by (by destruct cleanText).
  rewrite Hlen.
  destruct c as [t0 last changed [|]]; cbn [isSpeaking lastTranscript lastChangeTime negb andb
                                            startTime] in *.
  - destruct Hnew as [|Hnew]; [done|]. by rewrite bool_decide_true.
  - rewrite bool_decide_false by (intros Hn; by apply Hn).
    by destruct (Z.ltb_spec 3000 (now - now)); [lia|].
Qed.

Lemma tick_progress_witness :
  tick (Some "ann") (Some " Hello there ") 999999 just_started
  = (StatusOk,
     <["ann" := heard {| startTime := 1000; lastTranscript := ""; lastChangeTime := 1000;
                         isSpeaking := false |}
                  (trim (default "" (Some " Hello there "))) 999999]> just_started).
Proof.
  apply (tick_progress just_started "ann"
           {| startTime := 1000; lastTranscript := ""; lastChangeTime := 1000;
              isSpeaking := false |} (Some " Hello there ") 999999).
  - vm_compute; reflexivity.
  - discriminate.
  - apply (bool_decide_eq_true_1 _). vm_compute; reflexivity.
  - apply first_pair_None. vm_compute; reflexivity.
  - by left.
Defined.

(** X27.  A start puts a fresh record in place of whatever the user had,
    so the first tick after a start, at any time, never fails for
    silence: it answers ok, or fails for a filler or a repetition of its
    own transcript. *)
Theorem first_tick_after_start (m : gmap string Session) u t1 t2 transcript now :
  u ≠ "" →
  let m1 := (start (Some u) t1 t2 m).2 in
  (tick (Some u) transcript now m1).1 = StatusOk
  ∨ ∃ reason,
      instant_fail (trim (default "" transcript)) = Some reason
      ∧ tick (Some u) transcript now m1 = (StatusFail reason, delete u m).
Proof.
  intros Hu m1. subst m1. destruct u as [|a u]; [done|]. cbn [start snd].
  rewrite (tick_present _ _ _ _ _ (lookup_insert_eq _ _ _)).
  unfold tick_session. cbn [isSpeaking negb andb].
  destruct (instant_fail _) as [reason|].
  - right. exists reason. split; [done|]. by rewrite delete_insert_eq.
  - left. destruct (0 <? String.length _)%nat; cbn [isSpeaking lastTranscript lastChangeTime];
      [|done].
    rewrite bool_decide_false by (intros Hn; by apply Hn).
    by destruct (Z.ltb_spec 3000 (now - now)); [lia|].
Qed.

Lemma first_tick_after_start_witness :
  (tick (Some "ann") (Some "hello") 999999
     (start (Some "ann") 5 5 (run (hello_then 2000))).2).1 = StatusOk
  ∨ ∃ reason,
      instant_fail (trim (default "" (Some "hello"))) = Some reason
      ∧ tick (Some "ann") (Some "hello") 999999
          (start (Some "ann") 5 5 (run (hello_then 2000))).2
        = (StatusFail reason, delete "ann" (run (hello_then 2000))).
Proof.
  apply (first_tick_after_start (run (hello_then 2000)) "ann" 5 5 (Some "hello") 999999).
  discriminate.
Defined.

End ChallengeMore.
